(** * PD-EEG: EEG images and 1D-CNN evaluation notebooks

    A shallow embedding of the two notebooks of the repository,
    [eeg_to_images.ipynb] and [EEG_1D_CNN.ipynb], and the properties of
    their code.

    Conventions of the embedding.
    - The projection code is written once, over the operations it uses,
      and read in two arithmetics: IEEE 754 binary64, the arithmetic of
      the code, with the values of [m.atan2], [m.cos] and [m.sin] at the
      arguments the examples need; and exact real arithmetic, where
      Python's [math] functions ([m.sqrt], [m.atan2], [m.cos], [m.sin],
      [m.pi]) are the real functions they approximate.
    - NumPy arrays are lists (of lists ...) together with their shape where
      the shape cannot be read off the nesting.
    - The library calls whose code is not part of the repository
      ([scipy.interpolate.griddata], [sklearn.preprocessing.scale], the
      random generator, the Keras training calls, [train_test_split]
      and the scikit-learn metrics) are parameters of the sections that
      use them.  [StratifiedKFold] is embedded after the library's code,
      so that the folds are computed and not assumed. *)

From Stdlib Require Import Reals Lra Lia ZArith QArith Qround List String Permutation.
From Stdlib Require PrimFloat Uint63 FloatAxioms.
From stdpp Require Import base gmap strings list sorting.

(* ===================================================================== *)
(** * Python and NumPy: values, exceptions, indexing                      *)
(* ===================================================================== *)

Module Python.

(** ** Values and exceptions *)

Inductive exn : Type :=
| AssertionError | ZeroDivisionError | TypeError | NameError
| ValueError | AxisError | KeyError | IndexError.

Inductive result (A : Type) : Type :=
| Ok (a : A)
| Raise (e : exn).
Arguments Ok {A} a.
Arguments Raise {A} e.

#[export] Instance result_ret : MRet result := fun A a => Ok a.
#[export] Instance result_bind : MBind result :=
  fun A B f m => match m with Ok a => f a | Raise e => Raise e end.

(** A Python number: [int] or [float].  Array shapes are [int]s; the
    quotient [a / b] of two [int]s is a [float]. *)
Inductive pynum : Type :=
| PyInt (n : Z)
| PyFloat (q : Q).

(** An [int] operand of a [float] operation is converted to the
    [float] of the same value (exactly, below 2^53). *)
Definition float_of_int (z : Z) : PrimFloat.float :=
  if (z <? 0)%Z
  then PrimFloat.opp (PrimFloat.of_uint63 (Uint63.of_Z (- z)))
  else PrimFloat.of_uint63 (Uint63.of_Z z).

(** [a % b] on shape entries. *)
Definition py_mod (a b : nat) : result nat :=
  if (b =? 0)%nat then Raise ZeroDivisionError else Ok (a mod b)%nat.

(** [a / b] on shape entries: true division, the result is a [float]. *)
Definition py_truediv (a b : nat) : result pynum :=
  if (b =? 0)%nat then Raise ZeroDivisionError
  else Ok (PyFloat (Z.of_nat a # Pos.of_nat b)).

(** [int(x)]: truncation towards zero. *)
Definition py_int (x : pynum) : Z :=
  match x with
  | PyInt n => n
  | PyFloat q => Z.quot (Qnum q) (Z.pos (Qden q))
  end.

(** [range(n)] for an [int] [n]. *)
Definition range_int (n : Z) : list nat := seq 0 (Z.to_nat n).

(** [range(x)]: a [float] cannot be interpreted as an integer. *)
Definition py_range (x : pynum) : result (list nat) :=
  match x with
  | PyInt n => Ok (range_int n)
  | PyFloat _ => Raise TypeError
  end.

Definition py_assert (b : bool) : result unit :=
  if b then Ok tt else Raise AssertionError.

(** A loop whose body may raise. *)
Fixpoint for_each {A S : Type} (body : S -> A -> result S) (l : list A) (s : S)
  : result S :=
  match l with
  | [] => Ok s
  | x :: l' => s' ← body s x; for_each body l' s'
  end.

(** [a[i] = v] on a one-dimensional array. *)
Definition np_set {A : Type} (a : list A) (i : nat) (v : A) : result (list A) :=
  if (i <? length a)%nat then Ok (<[i := v]> a) else Raise IndexError.

(** ** Indexing with a list of indices *)

(** [a[idx]] for a list (or array) of indices [idx]: the rows of [a] at
    the indices, in the order of the indices; an index past the end
    raises. *)
Fixpoint np_take {A : Type} (a : list A) (idx : list nat) : result (list A) :=
  match idx with
  | [] => Ok []
  | i :: idx' =>
      match a !! i with
      | Some x => xs ← np_take a idx'; Ok (x :: xs)
      | None => Raise IndexError
      end
  end.

(** [np.arange(n)]. *)
Definition np_arange (n : nat) : list nat := seq 0 n.

(** ** The error monad *)

Lemma bind_Ok {A B : Type} (m : result A) (f : A -> result B) (b : B) :
  m ≫= f = Ok b <-> exists a, m = Ok a /\ f a = Ok b.
Proof.
  destruct m as [a|e]; cbn.
  - split; [eauto | intros (a' & Ha & Hf); congruence].
  - split; [discriminate | intros (a' & Ha & _); discriminate].
Qed.

Lemma bind_Ok_l {A B : Type} (m : result A) (f : A -> result B) (a : A) :
  m = Ok a -> m ≫= f = f a.
Proof. intros ->. reflexivity. Qed.

Lemma np_set_Ok {A : Type} (a : list A) (i : nat) (v : A) :
  (i < length a)%nat -> np_set a i v = Ok (<[i := v]> a).
Proof.
  intros Hi. unfold np_set.
  destruct (Nat.ltb_spec i (length a)); [reflexivity | lia].
Qed.

Lemma np_take_Ok {A : Type} (a : list A) (idx : list nat) (d : A) :
  Forall (fun i => (i < length a)%nat) idx ->
  np_take a idx = Ok (map (fun i => nth i a d) idx).
Proof.
  induction 1 as [|i idx Hi _ IH]; [reflexivity|].
  cbn [np_take map].
  destruct (lookup_lt_is_Some_2 a i Hi) as [x Hx].
  rewrite Hx, IH. cbn. erewrite nth_lookup_Some by exact Hx. reflexivity.
Qed.

Lemma map_nth_seq {A : Type} (l : list A) (d : A) :
  map (fun i => nth i l d) (seq 0 (length l)) = l.
Proof.
  apply nth_ext with (d := d) (d' := d).
  - rewrite length_map, length_seq. reflexivity.
  - intros i Hi. rewrite length_map, length_seq in Hi.
    rewrite (nth_indep _ d (nth 0 l d))
      by (rewrite length_map, length_seq; exact Hi).
    rewrite (map_nth (fun i => nth i l d)), seq_nth by exact Hi. reflexivity.
Qed.

(** Taking the rows at a permutation of all the indices permutes the
    rows. *)
Lemma np_take_perm {A : Type} (a : list A) (idx : list nat) :
  idx ≡ₚ seq 0 (length a) ->
  exists a', np_take a idx = Ok a' /\ a' ≡ₚ a.
Proof.
  intros Hperm.
  destruct a as [|d a0] eqn:Ha.
  { apply Permutation_nil_r in Hperm. subst idx. exists []. split; reflexivity. }
  rewrite <- Ha in *. clear Ha a0.
  exists (map (fun i => nth i a d) idx). split.
  - apply np_take_Ok. apply Forall_forall. intros i Hi.
    rewrite Hperm in Hi. apply elem_of_seq in Hi. lia.
  - transitivity (map (fun i => nth i a d) (seq 0 (length a))).
    + apply Permutation_map. exact Hperm.
    + rewrite map_nth_seq. reflexivity.
Qed.

(** Two arrays indexed by the same indices: their rows stay paired. *)
Lemma np_take_zip {A B : Type} (a : list A) (b : list B) (idx : list nat)
    (a' : list A) (b' : list B) :
  np_take a idx = Ok a' -> np_take b idx = Ok b' ->
  np_take (zip a b) idx = Ok (zip a' b').
Proof.
  revert a' b'. induction idx as [|i idx IH]; intros a' b' Ha Hb.
  - cbn in *. injection Ha as <-. injection Hb as <-. reflexivity.
  - cbn [np_take] in *.
    destruct (a !! i) as [x|] eqn:Hx; [|discriminate].
    destruct (b !! i) as [y|] eqn:Hy; [|discriminate].
    apply bind_Ok in Ha as (xs & Hxs & Ha). injection Ha as <-.
    apply bind_Ok in Hb as (ys & Hys & Hb). injection Hb as <-.
    assert (Hz : zip a b !! i = Some (x, y)).
    { apply lookup_zip_with_Some. eauto. }
    rewrite Hz, (IH xs ys Hxs Hys). reflexivity.
Qed.

Lemma lookup_map {A B : Type} (f : A -> B) (l : list A) (i : nat) :
  map f l !! i = f <$> (l !! i).
Proof.
  revert i. induction l as [|x l IH]; intros [|i]; cbn; auto.
Qed.

(** ** Lists of index sets *)

Lemma concat_NoDup_each {A : Type} (ls : list (list A)) (a : list A) :
  NoDup (concat ls) -> a ∈ ls -> NoDup a.
Proof.
  induction ls as [|l ls IH]; intros Hnd Ha; [inversion Ha|].
  cbn [concat] in Hnd. apply NoDup_app in Hnd as (Hl & _ & Hls).
  apply elem_of_cons in Ha as [->|Ha]; auto.
Qed.

(** The members of a duplicate-free concatenation are pairwise
    disjoint. *)
Lemma concat_NoDup_disjoint {A : Type} (ls : list (list A)) (j k : nat)
    (a b : list A) :
  NoDup (concat ls) -> ls !! j = Some a -> ls !! k = Some b -> j <> k ->
  forall x, x ∈ a -> x ∉ b.
Proof.
  revert j k. induction ls as [|l ls IH]; intros j k Hnd Hj Hk Hjk x Ha Hb;
    [discriminate|].
  cbn [concat] in Hnd. apply NoDup_app in Hnd as (_ & Hdisj & Hls).
  assert (Hsub : forall i c y, ls !! i = Some c -> y ∈ c -> y ∈ concat ls).
  { intros i c y Hc Hy. apply list_elem_of_In, in_concat.
    exists c. split; apply list_elem_of_In; [|exact Hy].
    apply list_elem_of_lookup. eauto. }
  destruct j as [|j], k as [|k]; try congruence; cbn in Hj, Hk.
  - injection Hj as ->. exact (Hdisj x Ha (Hsub k b x Hk Hb)).
  - injection Hk as ->. exact (Hdisj x Hb (Hsub j a x Hj Ha)).
  - assert (Hne : j <> k) by congruence.
    exact (IH j k Hls Hj Hk Hne x Ha Hb).
Qed.

End Python.

(* ===================================================================== *)
(** * Part I.  [eeg_to_images.ipynb]: the azimuthal projection            *)
(* ===================================================================== *)

Module Projection.
Import Python.

Local Open Scope R_scope.

(** ** The arithmetic of the projection code

    The three functions use the arithmetic of Python's [float] and the
    functions of the [math] module ([import math as m]).  They are
    written once, over the operations, and read in two arithmetics: that
    of the real numbers, which the operations approximate, and IEEE 754
    binary64, in which the code runs. *)
Class Math (F : Type) : Type := {
  m_add : F -> F -> F;
  m_sub : F -> F -> F;
  m_mul : F -> F -> F;
  m_div : F -> F -> F;
  m_pow2 : F -> F;                 (* x ** 2 *)
  m_of_int : Z -> F;               (* an int operand, as in m.pi / 2 *)
  m_pi : F;
  m_sqrt : F -> F;
  m_atan2 : F -> F -> F;
  m_cos : F -> F;
  m_sin : F -> F
}.

Section Code.
Context {F : Type} `{Math F}.

(** [cart2sph(x, y, z)]: radius, elevation, azimuth. *)
Definition cart2sph (x y z : F) : F * F * F :=
  let x2_y2 := m_add (m_pow2 x) (m_pow2 y) in
  let r := m_sqrt (m_add x2_y2 (m_pow2 z)) in
  let elev := m_atan2 z (m_sqrt x2_y2) in
  let az := m_atan2 y x in
  (r, elev, az).

(** [pol2cart(theta, rho)]. *)
Definition pol2cart (theta rho : F) : F * F :=
  (m_mul rho (m_cos theta), m_mul rho (m_sin theta)).

(** [azim_proj(pos)]: a position is a row of the electrode table,
    [pos[0]], [pos[1]], [pos[2]]; the radius of [cart2sph] is bound and
    not used. *)
Definition azim_proj (pos : F * F * F) : F * F :=
  let '(x, y, z) := pos in
  let '(r, elev, az) := cart2sph x y z in
  pol2cart az (m_sub (m_div m_pi (m_of_int 2)) elev).

(** Scaling of a position, [c * pos] on a NumPy row. *)
Definition scale3 (c : F) (pos : F * F * F) : F * F * F :=
  let '(x, y, z) := pos in (m_mul c x, m_mul c y, m_mul c z).

(** The distance of a point of the plane from the origin and its angle
    about the origin, in the same arithmetic. *)
Definition distance (p : F * F) : F :=
  m_sqrt (m_add (m_pow2 (fst p)) (m_pow2 (snd p))).

Definition angle (p : F * F) : F := m_atan2 (snd p) (fst p).

End Code.

(** ** Exact arithmetic *)

(** The real function that [math.atan2(y, x)] rounds: the angle in
    (-pi, pi] of the point (x, y), with [atan2(0, 0) = 0].  The real
    numbers have one zero; the [math.atan2] of the code, which reads the
    sign of a zero, is [Binary64.libm_atan2] below. *)
Definition atan2 (y x : R) : R :=
  match total_order_T 0 x with
  | inleft (left _) => atan (y / x)                      (* 0 < x *)
  | inleft (right _) =>                                   (* x = 0 *)
      match total_order_T 0 y with
      | inleft (left _) => PI / 2
      | inleft (right _) => 0
      | inright _ => - (PI / 2)
      end
  | inright _ =>                                          (* x < 0 *)
      if Rle_dec 0 y then atan (y / x) + PI else atan (y / x) - PI
  end.

#[export] Instance exact_math : Math R := {|
  m_add := Rplus;
  m_sub := Rminus;
  m_mul := Rmult;
  m_div := Rdiv;
  m_pow2 := fun x => x ^ 2;
  m_of_int := IZR;
  m_pi := PI;
  m_sqrt := sqrt;
  m_atan2 := atan2;
  m_cos := cos;
  m_sin := sin
|}.

Abbreviation point3 := (R * R * R)%type.
Abbreviation point2 := (R * R)%type.

(** ** The arithmetic of the code: IEEE 754 binary64 *)

Module Binary64.
Import PrimFloat.
Local Open Scope float_scope.

(** [math.pi], the [float] nearest to pi. *)
Definition pi : float := 0x1.921fb54442d18p+1.

(** The functions of the C library behind [math.atan2], [math.cos] and
    [math.sin], at the arguments the examples use.  Where an argument is
    a zero the values are those IEEE 754 and Annex F of the C standard
    fix; the others are listed, each the [float] nearest to the value of
    the real function.  No other argument is modelled (NaN). *)
Definition atan2_values : list (float * float * float) :=
  [ (1, 1, 0x1.921fb54442d18p-1);                       (* atan2(1, 1) *)
    (1, 3, 0x1.4978fa3269ee1p-2);                       (* atan2(1, 3) *)
    (2, 3, 0x1.2d0ead6066395p-1);                       (* atan2(2, 3) *)
    (0x1.fca6a2a429f6dp-2, 0x1.7d7cf9fb1f791p+0, 0x1.4978fa3269ee2p-2) ].

Definition cos_values : list (float * float) :=
  [ (0x1.921fb54442d18p+1, -1);                         (* cos(math.pi) *)
    (0x1.4978fa3269ee1p-2, 0x1.e5b9d136c6d96p-1);
    (0x1.2d0ead6066395p-1, 0x1.aa027f059dce1p-1) ].

Definition sin_values : list (float * float) :=
  [ (0x1.921fb54442d18p+1, 0x1.1a62633145c07p-53);      (* sin(math.pi) *)
    (0x1.4978fa3269ee1p-2, 0x1.43d136248490fp-2);
    (0x1.2d0ead6066395p-1, 0x1.1c01aa03be895p-1) ].

Fixpoint lookup1 (t : list (float * float)) (x : float) : float :=
  match t with
  | [] => nan
  | (a, v) :: t' => if Leibniz.eqb x a then v else lookup1 t' x
  end.

Fixpoint lookup2 (t : list (float * float * float)) (y x : float) : float :=
  match t with
  | [] => nan
  | (b, a, v) :: t' =>
      if Leibniz.eqb y b && Leibniz.eqb x a then v else lookup2 t' y x
  end.

(** [atan2(+-0, x)] is [+-0] for [x > 0] and [x = +0], and [+-pi] for
    [x < 0] and [x = -0]; [atan2(y, +-0)] is [+-pi/2] for [y] not zero;
    a NaN argument gives NaN. *)
Definition libm_atan2 (y x : float) : float :=
  if is_nan y || is_nan x then nan
  else if is_zero y then
    if get_sign x then (if get_sign y then - pi else pi) else y
  else if is_zero x then
    if get_sign y then - (pi / 2) else pi / 2
  else lookup2 atan2_values y x.

(** [cos(+-0) = 1] and [sin(+-0) = +-0]. *)
Definition libm_cos (x : float) : float :=
  if is_zero x then 1 else lookup1 cos_values x.

Definition libm_sin (x : float) : float :=
  if is_zero x then x else lookup1 sin_values x.

(** [x ** 2] is the [float] nearest to the square; [math.sqrt] is the
    square root of IEEE 754. *)
#[export] Instance binary64_math : Math float := {|
  m_add := add;
  m_sub := sub;
  m_mul := mul;
  m_div := div;
  m_pow2 := fun x => x * x;
  m_of_int := float_of_int;
  m_pi := pi;
  m_sqrt := sqrt;
  m_atan2 := libm_atan2;
  m_cos := libm_cos;
  m_sin := libm_sin
|}.

(** The scale factor 1e-200 of the underflow example. *)
Definition tiny : float := 0x1.87e92154ef7acp-665.

End Binary64.

(** ** The cases of [atan2] *)

Ltac atan2_cases :=
  unfold atan2;
  repeat match goal with
         | |- context [total_order_T ?a ?b] =>
             destruct (total_order_T a b) as [[?|?]|?]
         | |- context [Rle_dec ?a ?b] => destruct (Rle_dec a b)
         end;
  first [reflexivity | lra].

Lemma atan2_x_pos y x : 0 < x -> atan2 y x = atan (y / x).
Proof. intros Hx. atan2_cases. Qed.

Lemma atan2_x_neg_y_nonneg y x :
  x < 0 -> 0 <= y -> atan2 y x = atan (y / x) + PI.
Proof. intros Hx Hy. atan2_cases. Qed.

Lemma atan2_x_neg_y_neg y x :
  x < 0 -> y < 0 -> atan2 y x = atan (y / x) - PI.
Proof. intros Hx Hy. atan2_cases. Qed.

Lemma atan2_x_zero_y_pos y : 0 < y -> atan2 y 0 = PI / 2.
Proof. intros Hy. atan2_cases. Qed.

Lemma atan2_x_zero_y_neg y : y < 0 -> atan2 y 0 = - (PI / 2).
Proof. intros Hy. atan2_cases. Qed.

Lemma atan2_origin : atan2 0 0 = 0.
Proof. atan2_cases. Qed.

(** The azimuth lies in (-pi, pi]. *)
Lemma atan2_range y x : - PI < atan2 y x <= PI.
Proof.
  pose proof PI_RGT_0 as Hpi.
  destruct (total_order_T 0 x) as [[Hx|Hx]|Hx].
  - rewrite atan2_x_pos by assumption.
    pose proof (atan_bound (y / x)). lra.
  - subst x. destruct (total_order_T 0 y) as [[Hy|Hy]|Hy].
    + rewrite atan2_x_zero_y_pos by assumption. lra.
    + subst y. rewrite atan2_origin. lra.
    + rewrite atan2_x_zero_y_neg by assumption. lra.
  - destruct (Rle_dec 0 y) as [Hy|Hy].
    + rewrite atan2_x_neg_y_nonneg by assumption.
      assert (Hq : y / x <= 0).
      { unfold Rdiv. apply Ropp_le_cancel. rewrite Ropp_0.
        replace (- (y * / x)) with (y * / - x) by (field; lra).
        apply Rmult_le_pos; [assumption|].
        left. apply Rinv_0_lt_compat. lra. }
      pose proof (atan_bound (y / x)).
      assert (atan (y / x) <= 0).
      { destruct Hq as [Hq|Hq].
        - left. rewrite <- atan_0. apply atan_increasing. exact Hq.
        - rewrite Hq, atan_0. lra. }
      lra.
    + apply Rnot_le_lt in Hy.
      rewrite atan2_x_neg_y_neg by assumption.
      assert (Hq : 0 < y / x).
      { replace (y / x) with ((- y) * / (- x)) by (field; lra).
        apply Rmult_lt_0_compat; [lra|]. apply Rinv_0_lt_compat. lra. }
      pose proof (atan_bound (y / x)).
      assert (0 < atan (y / x)).
      { rewrite <- atan_0. apply atan_increasing. exact Hq. }
      lra.
Qed.

(** With a non-negative abscissa, which is what [cart2sph] passes for the
    elevation, the angle is at most a right angle, and it is a right angle
    only straight above the origin. *)
Lemma atan2_x_nonneg_le y x : 0 <= x -> atan2 y x <= PI / 2.
Proof.
  intros Hx. pose proof PI_RGT_0 as Hpi.
  destruct Hx as [Hx|Hx].
  - rewrite atan2_x_pos by assumption. pose proof (atan_bound (y / x)). lra.
  - subst x. destruct (total_order_T 0 y) as [[Hy|Hy]|Hy].
    + rewrite atan2_x_zero_y_pos by assumption. lra.
    + subst y. rewrite atan2_origin. lra.
    + rewrite atan2_x_zero_y_neg by assumption. lra.
Qed.

Lemma atan2_x_nonneg_right_angle y x :
  0 <= x -> atan2 y x = PI / 2 -> x = 0.
Proof.
  intros Hx Heq. destruct Hx as [Hx|Hx]; [|congruence].
  rewrite atan2_x_pos in Heq by assumption.
  pose proof (atan_bound (y / x)). lra.
Qed.

(** ** Polar coordinates and [atan2] *)

Lemma polar_quotient r a :
  0 < r -> cos a <> 0 -> (r * sin a) / (r * cos a) = tan a.
Proof. intros Hr Hc. unfold tan. field. split; lra. Qed.

Lemma tan_minus_PI a : cos a <> 0 -> tan (a - PI) = tan a.
Proof.
  intros Hc. unfold tan.
  rewrite sin_minus, cos_minus, sin_PI, cos_PI. field. lra.
Qed.

Lemma tan_plus_PI a : cos a <> 0 -> tan (a + PI) = tan a.
Proof.
  intros Hc. unfold tan.
  rewrite sin_plus, cos_plus, sin_PI, cos_PI. field. lra.
Qed.

Lemma cos_neg_left a : - PI < a -> a < - (PI / 2) -> cos a < 0.
Proof.
  intros H1 H2. rewrite <- cos_neg. apply cos_lt_0; lra.
Qed.

(** The angle about the origin of the point at distance [r > 0] in
    direction [a] is [a] itself, for [a] in the range of [atan2]. *)
Lemma atan2_polar r a :
  0 < r -> - PI < a <= PI -> atan2 (r * sin a) (r * cos a) = a.
Proof.
  intros Hr [Hlo Hhi]. pose proof PI_RGT_0 as Hpi.
  destruct (total_order_T a (PI / 2)) as [[Hlt|Heq]|Hgt].
  - destruct (total_order_T a (- (PI / 2))) as [[Hlt'|Heq']|Hgt'].
    + (* third quadrant *)
      assert (Hc : cos a < 0) by (apply cos_neg_left; lra).
      assert (Hs : sin a < 0) by (apply sin_lt_0_var; lra).
      rewrite atan2_x_neg_y_neg by nra.
      rewrite polar_quotient by lra.
      rewrite <- (tan_plus_PI a) by lra.
      rewrite atan_tan by lra. lra.
    + subst a. rewrite cos_neg, sin_neg, cos_PI2, sin_PI2.
      replace (r * 0) with 0 by ring.
      rewrite atan2_x_zero_y_neg by lra. reflexivity.
    + assert (Hc : 0 < cos a) by (apply cos_gt_0; lra).
      rewrite atan2_x_pos by nra.
      rewrite polar_quotient by lra.
      apply atan_tan. lra.
  - subst a. rewrite cos_PI2, sin_PI2.
    replace (r * 0) with 0 by ring.
    rewrite atan2_x_zero_y_pos by lra. reflexivity.
  - (* second quadrant, the half-line of angle pi included *)
    assert (Hc : cos a < 0) by (apply cos_lt_0; lra).
    assert (Hs : 0 <= sin a) by (apply sin_ge_0; lra).
    rewrite atan2_x_neg_y_nonneg by nra.
    rewrite polar_quotient by lra.
    rewrite <- (tan_minus_PI a) by lra.
    rewrite atan_tan by lra. lra.
Qed.

(** ** Positive scaling *)

Lemma atan2_scale c y x : 0 < c -> atan2 (c * y) (c * x) = atan2 y x.
Proof.
  intros Hc.
  assert (Hq : x <> 0 -> c * y / (c * x) = y / x) by (intros; field; lra).
  destruct (total_order_T 0 x) as [[Hx|Hx]|Hx].
  - rewrite !atan2_x_pos by nra. rewrite Hq by lra. reflexivity.
  - subst x. replace (c * 0) with 0 by ring.
    destruct (total_order_T 0 y) as [[Hy|Hy]|Hy].
    + rewrite !atan2_x_zero_y_pos by nra. reflexivity.
    + subst y. replace (c * 0) with 0 by ring. reflexivity.
    + rewrite !atan2_x_zero_y_neg by nra. reflexivity.
  - destruct (Rle_dec 0 y) as [Hy|Hy].
    + rewrite !atan2_x_neg_y_nonneg by nra. rewrite Hq by lra. reflexivity.
    + apply Rnot_le_lt in Hy.
      rewrite !atan2_x_neg_y_neg by nra. rewrite Hq by lra. reflexivity.
Qed.

Lemma sqrt_scale c x y :
  0 <= c -> sqrt ((c * x) ^ 2 + (c * y) ^ 2) = c * sqrt (x ^ 2 + y ^ 2).
Proof.
  intros Hc.
  replace ((c * x) ^ 2 + (c * y) ^ 2) with (c ^ 2 * (x ^ 2 + y ^ 2)) by ring.
  rewrite sqrt_mult_alt by nra.
  replace (c ^ 2) with (Rsqr c) by (unfold Rsqr; ring).
  rewrite sqrt_Rsqr by assumption. reflexivity.
Qed.

Lemma sum_squares_zero x y : sqrt (x ^ 2 + y ^ 2) = 0 -> x = 0 /\ y = 0.
Proof.
  intros H. apply sqrt_eq_0 in H; [|nra]. split; nra.
Qed.

(** The colatitude [pi/2 - elev] is never negative. *)
Lemma colatitude_nonneg x y z :
  0 <= PI / 2 - atan2 z (sqrt (x ^ 2 + y ^ 2)).
Proof.
  pose proof (atan2_x_nonneg_le z (sqrt (x ^ 2 + y ^ 2)) (sqrt_pos _)). lra.
Qed.

(** ** The projection *)

Lemma azim_proj_exact (x y z : R) :
  azim_proj (x, y, z)
  = ((PI / 2 - atan2 z (sqrt (x ^ 2 + y ^ 2))) * cos (atan2 y x),
     (PI / 2 - atan2 z (sqrt (x ^ 2 + y ^ 2))) * sin (atan2 y x)).
Proof. reflexivity. Qed.

(** C1 (as amended). In the arithmetic of the code as in any other,
    [azim_proj] returns
    ((pi/2 - elev) * cos az, (pi/2 - elev) * sin az) for the elevation
    elev = atan2(z, sqrt(x^2 + y^2)) and the azimuth az = atan2(y, x)
    that [cart2sph] computes.  In exact arithmetic, the distance of the
    projected point from the origin is the colatitude pi/2 - elev and
    its angle about the origin is the azimuth az. *)
Theorem azim_proj_equidistant :
  (forall (F : Type) (M : Math F) (x y z : F),
      let elev := m_atan2 z (m_sqrt (m_add (m_pow2 x) (m_pow2 y))) in
      let az := m_atan2 y x in
      let rho := m_sub (m_div m_pi (m_of_int 2)) elev in
      snd (fst (cart2sph x y z)) = elev
      /\ snd (cart2sph x y z) = az
      /\ azim_proj (x, y, z) = (m_mul rho (m_cos az), m_mul rho (m_sin az)))
  /\ (forall x y z : R,
        let elev := snd (fst (cart2sph x y z)) in
        let az := snd (cart2sph x y z) in
        distance (azim_proj (x, y, z)) = PI / 2 - elev
        /\ angle (azim_proj (x, y, z)) = az).
Proof.
  split; [intros F M x y z; repeat split; reflexivity|].
  intros x y z elev az.
  unfold distance, angle. rewrite azim_proj_exact.
  change elev with (atan2 z (sqrt (x ^ 2 + y ^ 2))).
  change az with (atan2 y x).
  cbn [fst snd m_sqrt m_add m_pow2 m_atan2 exact_math].
  pose proof (colatitude_nonneg x y z) as Hrho.
  set (rho := PI / 2 - atan2 z (sqrt (x ^ 2 + y ^ 2))) in *.
  split.
  - replace ((rho * cos (atan2 y x)) ^ 2 + (rho * sin (atan2 y x)) ^ 2)
      with (Rsqr rho * (Rsqr (sin (atan2 y x)) + Rsqr (cos (atan2 y x))))
      by (unfold Rsqr; ring).
    rewrite sin2_cos2, Rmult_1_r. apply sqrt_Rsqr. exact Hrho.
  - destruct Hrho as [Hpos|Hzero].
    + apply atan2_polar; [exact Hpos | apply atan2_range].
    + (* straight above the origin: the projected point is the origin *)
      rewrite <- Hzero, !Rmult_0_l, atan2_origin.
      assert (Hs : sqrt (x ^ 2 + y ^ 2) = 0).
      { apply (atan2_x_nonneg_right_angle z); [apply sqrt_pos|].
        unfold rho in Hzero. lra. }
      apply sum_squares_zero in Hs. destruct Hs as [-> ->].
      rewrite atan2_origin. reflexivity.
Qed.

(** C8 (as amended). In exact arithmetic [azim_proj] is invariant under
    positive scaling: for every position, the origin included, and every
    real c > 0, the elevation and the azimuth of [c * pos] are those of
    [pos], and azim_proj(c * pos) = azim_proj(pos); the radius is not
    used. *)
Theorem azim_proj_scale_invariant (c : R) (pos : point3) :
  0 < c ->
  snd (fst (let '(x, y, z) := scale3 c pos in cart2sph x y z))
  = snd (fst (let '(x, y, z) := pos in cart2sph x y z))
  /\ snd (let '(x, y, z) := scale3 c pos in cart2sph x y z)
     = snd (let '(x, y, z) := pos in cart2sph x y z)
  /\ azim_proj (scale3 c pos) = azim_proj pos.
Proof.
  intros Hc. destruct pos as [[x y] z].
  change (scale3 c (x, y, z)) with (c * x, c * y, c * z).
  rewrite !azim_proj_exact.
  cbn [cart2sph fst snd m_sqrt m_add m_pow2 m_atan2 exact_math].
  rewrite sqrt_scale by lra.
  rewrite !atan2_scale by assumption.
  repeat split; reflexivity.
Qed.

Lemma azim_proj_scale_invariant_witness :
  0 < 2 /\ azim_proj (scale3 2 (1, 2, 3)) = azim_proj (1, 2, 3).
Proof.
  split; [lra | apply (azim_proj_scale_invariant 2 (1, 2, 3)); lra].
Defined.

(** ** The code in binary64 *)

Module Rounding.
Import PrimFloat Binary64.
Local Open Scope float_scope.

Lemma float_neq (a b : float) : Leibniz.eqb a b = false -> a <> b.
Proof.
  intros Hab Heq. apply FloatAxioms.Leibniz.eqb_spec in Heq. congruence.
Qed.

(** In binary64 the distance and the angle of the projected point are
    not those of the position.  For the position (3, 2, 0) the elevation
    is 0 and the colatitude [math.pi / 2] = 1.5707963267948966; the
    projected point is (1.3069815460544973, 0.8713210307029982), at
    distance 1.5707963267948963 from the origin.  For the position
    (3, 1, 0) the azimuth is 0.3217505543966422 and the angle of the
    projected point is 0.32175055439664224. *)
Lemma azim_proj_binary64_rounding :
  (snd (fst (cart2sph 3 2 0)) = 0
   /\ m_sub (m_div m_pi (m_of_int 2)) (snd (fst (cart2sph 3 2 0)))
      = 0x1.921fb54442d18p+0
   /\ azim_proj (3, 2, 0) = (0x1.4e9657b4c792dp+0, 0x1.be1dca465f6e6p-1)
   /\ distance (azim_proj (3, 2, 0)) = 0x1.921fb54442d17p+0
   /\ distance (azim_proj (3, 2, 0))
      <> m_sub (m_div m_pi (m_of_int 2)) (snd (fst (cart2sph 3 2 0))))
  /\ (snd (cart2sph 3 1 0) = 0x1.4978fa3269ee1p-2
      /\ azim_proj (3, 1, 0) = (0x1.7d7cf9fb1f791p+0, 0x1.fca6a2a429f6dp-2)
      /\ angle (azim_proj (3, 1, 0)) = 0x1.4978fa3269ee2p-2
      /\ angle (azim_proj (3, 1, 0)) <> snd (cart2sph 3 1 0)).
Proof.
  repeat split; try (vm_compute; reflexivity);
    apply float_neq; vm_compute; reflexivity.
Qed.

(** In binary64 the projection is not invariant under positive scaling.
    With c = 1e-200 and pos = (1, 0, 1) the squares of the coordinates
    of [c * pos] underflow to 0: the elevation of [c * pos] is
    [math.pi / 2] and its projection is (0, 0), where the projection of
    [pos] is (0.7853981633974483, 0). *)
Lemma azim_proj_binary64_underflow :
  (0 <? tiny) = true
  /\ scale3 tiny (1, 0, 1) = (tiny, 0, tiny)
  /\ m_pow2 tiny = 0
  /\ azim_proj (scale3 tiny (1, 0, 1)) = (0, 0)
  /\ azim_proj (1, 0, 1) = (0x1.921fb54442d18p-1, 0)
  /\ azim_proj (scale3 tiny (1, 0, 1)) <> azim_proj (1, 0, 1).
Proof.
  repeat split; try (vm_compute; reflexivity).
  intros Heq.
  apply (f_equal (fun p : float * float => Leibniz.eqb (fst p) 0)) in Heq.
  vm_compute in Heq. discriminate Heq.
Qed.

(** The zeros of binary64 carry a sign, which [math.atan2] reads: the
    azimuth of (-0.0, 0, 0) is [math.pi], and the position is projected
    to (-1.5707963267948966, 1.9236706937217898e-16). *)
Lemma azim_proj_negative_zero :
  snd (cart2sph (- 0) 0 0) = pi
  /\ azim_proj (- 0, 0, 0) = (-0x1.921fb54442d18p+0, 0x1.bb9179a03e784p-53).
Proof. split; vm_compute; reflexivity. Qed.

End Rounding.

End Projection.

(* ===================================================================== *)
(** * Part I (continued).  [eeg_to_images.ipynb]: [gen_images]            *)
(* ===================================================================== *)

Module GenImages.
Import Python Projection.

(** ** Array entries *)

(** A [float64] entry: a real number, an infinity or NaN.  Arithmetic on
    the finite entries is exact. *)
Inductive npfloat : Type :=
| Finite (r : R)
| PosInf
| NegInf
| NaN.

Definition isnan (x : npfloat) : bool :=
  match x with NaN => true | _ => false end.

Definition is_finite (x : npfloat) : bool :=
  match x with Finite _ => true | _ => false end.

(** The largest finite [float64], (2^53 - 1) * 2^971. *)
Definition float_max : R := (IZR (2 ^ 53 - 1) * 2 ^ 971)%R.

(** [np.nan_to_num]: NaN becomes zero, the infinities become the largest
    and the smallest finite numbers. *)
Definition nan_to_num (x : npfloat) : npfloat :=
  match x with
  | Finite r => Finite r
  | PosInf => Finite float_max
  | NegInf => Finite (- float_max)%R
  | NaN => Finite 0%R
  end.

Definition f_add (x y : npfloat) : npfloat :=
  match x, y with
  | Finite a, Finite b => Finite (a + b)%R
  | NaN, _ | _, NaN => NaN
  | PosInf, NegInf | NegInf, PosInf => NaN
  | PosInf, _ | _, PosInf => PosInf
  | NegInf, _ | _, NegInf => NegInf
  end.

Definition f_neg (x : npfloat) : npfloat :=
  match x with
  | Finite a => Finite (- a)%R
  | PosInf => NegInf
  | NegInf => PosInf
  | NaN => NaN
  end.

(** The product of an infinity and a finite factor [a]. *)
Definition inf_times (inf : npfloat) (a : R) : npfloat :=
  match total_order_T 0 a with
  | inleft (left _) => inf
  | inleft (right _) => NaN
  | inright _ => f_neg inf
  end.

Definition f_mul (x y : npfloat) : npfloat :=
  match x, y with
  | Finite a, Finite b => Finite (a * b)%R
  | NaN, _ | _, NaN => NaN
  | PosInf, Finite a | Finite a, PosInf => inf_times PosInf a
  | NegInf, Finite a | Finite a, NegInf => inf_times NegInf a
  | PosInf, PosInf | NegInf, NegInf => PosInf
  | PosInf, NegInf | NegInf, PosInf => NegInf
  end.

(** A two-dimensional array [features]: the number of columns
    ([features.shape[1]]) and the rows ([features.shape[0]] of them). *)
Record ndarray2 : Type := {
  ncols : nat;
  rows : list (list npfloat)
}.

Definition wf_ndarray2 (a : ndarray2) : Prop :=
  Forall (fun r => length r = ncols a) (rows a).

(** A band: [n_samples] rows of [n_electrodes] values.  An image stack:
    [n_samples] images of [n_gridpoints] x [n_gridpoints] pixels.  The
    returned tensor: [samples, colors, W, H]. *)
Abbreviation band := (list (list npfloat)).
Abbreviation image := (list (list npfloat)).
Abbreviation tensor4 := (list (list (list (list npfloat)))).

(** [a[:, lo:hi]]. *)
Definition slice_cols (lo hi : nat) (m : list (list npfloat)) : band :=
  map (fun r => take (hi - lo) (drop lo r)) m.

(** ** The grid *)

(** The builtin [min] and [max] of a sequence. *)
Definition py_min (l : list R) : result R :=
  match l with
  | [] => Raise ValueError
  | x :: l' => Ok (fold_left (fun m y => if Rlt_dec y m then y else m) l' x)
  end.

Definition py_max (l : list R) : result R :=
  match l with
  | [] => Raise ValueError
  | x :: l' => Ok (fold_left (fun m y => if Rgt_dec y m then y else m) l' x)
  end.

(** One axis of [np.mgrid[start:stop:n*1j]]: [n] points, [index * step +
    start], where the step is [(stop - start) / (n - 1)] unless [n] is 1. *)
Definition mgrid_axis (start stop : R) (n : nat) : list R :=
  let step := if (n =? 1)%nat then 1%R else ((stop - start) / INR (n - 1))%R in
  map (fun i => (INR i * step + start)%R) (seq 0 n).

(** The pairs [(grid_x[a, b], grid_y[a, b])]. *)
Definition mgrid (start0 stop0 start1 stop1 : R) (n : nat) : list (list point2) :=
  map (fun x => map (fun y => (x, y)) (mgrid_axis start1 stop1 n))
      (mgrid_axis start0 stop0 n).

(** ** Masked assignment *)

(** [a[~np.isnan(a)] = vals] on a flat row: the entries that are not NaN
    are overwritten, in order, by the values; the values left over are
    returned for the rows that follow. *)
Fixpoint fill_row (row vals : list npfloat) : list npfloat * list npfloat :=
  match row with
  | [] => ([], vals)
  | x :: row' =>
      if isnan x then
        let '(r, v) := fill_row row' vals in (x :: r, v)
      else
        match vals with
        | [] => let '(r, v) := fill_row row' [] in (x :: r, v)
        | y :: vals' => let '(r, v) := fill_row row' vals' in (y :: r, v)
        end
  end.

(** Threading the values left over through a list of rows. *)
Fixpoint map_accum {A B S : Type} (f : A -> S -> B * S) (l : list A) (s : S)
  : list B * S :=
  match l with
  | [] => ([], s)
  | x :: l' =>
      let '(y, s1) := f x s in
      let '(ys, s2) := map_accum f l' s1 in
      (y :: ys, s2)
  end.

Definition fill_image (im : image) (vals : list npfloat) :=
  map_accum fill_row im vals.

Definition fill_stack (st : list image) (vals : list npfloat) :=
  map_accum fill_image st vals.

(** The entries of an image stack in array order. *)
Definition flatten_stack (st : list image) : list npfloat :=
  concat (map (fun im => concat im) st).

Definition not_nan (x : npfloat) : bool := negb (isnan x).

(** ** Reading the arrays *)

(** The [n_electrodes] values of band [c] of sample [i]. *)
Definition band_values (features : ndarray2) (nE i c : nat) : list npfloat :=
  take nE (drop (c * nE) (nth i (rows features) [])).

(** [im[a, b]], [st[i, a, b]] and [t[i, c, a, b]]. *)
Definition pixel (im : image) (a b : nat) : option npfloat :=
  im !! a ≫= fun row => row !! b.

Definition stack_entry (st : list image) (i a b : nat) : option npfloat :=
  st !! i ≫= fun im => pixel im a b.

Definition entry (t : tensor4) (i c a b : nat) : option npfloat :=
  t !! i ≫= fun s => stack_entry s c a b.

(** [out[~np.isnan(src)]]: the entries of [out] at the positions where
    [src] is not NaN. *)
Fixpoint mask_select (src out : list npfloat) : list npfloat :=
  match src, out with
  | x :: src', y :: out' =>
      if isnan x then mask_select src' out' else y :: mask_select src' out'
  | _, _ => []
  end.

(** ** The bounding box and the grid points *)

(** The least and the greatest element of a list. *)
Definition is_min (m : R) (l : list R) : Prop :=
  In m l /\ forall x, In x l -> (m <= x)%R.

Definition is_max (m : R) (l : list R) : Prop :=
  In m l /\ forall x, In x l -> (x <= m)%R.

(** The coordinate of index [a] on a grid axis of [n] points from [lo] to
    [hi]. *)
Definition grid_coord (lo hi : R) (n a : nat) : R :=
  (INR a * (if (n =? 1)%nat then 1 else (hi - lo) / INR (n - 1)) + lo)%R.

(** ** Finite entries and shapes *)

Definition image_finite (im : image) : Prop :=
  Forall (Forall (fun x => is_finite x = true)) im.

Definition tensor_finite (t : tensor4) : Prop :=
  Forall (Forall image_finite) t.

Definition image_shape (G : nat) (im : image) : Prop :=
  length im = G /\ Forall (fun r => length r = G) im.

(** A tensor of shape [[n1, n2, G, G]]. *)
Definition has_shape4 (t : tensor4) (n1 n2 G : nat) : Prop :=
  length t = n1
  /\ Forall (fun s => length s = n2 /\ Forall (image_shape G) s) t.

(** ** The library functions

    [griddata locs values p] is the value at the grid point [p] of the
    cubic interpolant SciPy builds from the electrode positions and their
    values ([method='cubic'], [fill_value=np.nan]); [scale] is
    [sklearn.preprocessing.scale] on a one-dimensional array; [np_std] is
    [np.std]; [np_random_normal s n k] is the [k]-th call
    [np.random.normal(scale=s, size=n)].  The interpolation and the
    scaling are taken as they return: inputs on which the libraries raise
    (a degenerate triangulation, an empty sample) are outside the model. *)
Section Library.

Variable griddata : list point2 -> list npfloat -> point2 -> npfloat.
Variable scale : list npfloat -> list npfloat.
Variable np_std : list npfloat -> npfloat.
Variable np_random_normal : npfloat -> nat -> nat -> result (list npfloat).

(** [m.transpose()] of an array of shape [(n_rows, n_cols)]. *)
Definition transpose (n_rows n_cols : nat) (m : list (list npfloat))
  : list (list npfloat) :=
  map (fun f => map (fun i => nth f (nth i m []) NaN) (seq 0 n_rows))
      (seq 0 n_cols).

(** [augment_EEG(data, stdMult, pca, n_components)] on [data] of shape
    [(n_samples, n_feat)]; [draw0] counts the calls of the random
    generator made before.  The notebook does not import [PCA], so the
    branch [pca=True] stops at the name. *)
Definition augment_EEG (draw0 : nat) (data : band) (n_samples n_feat : nat)
    (stdMult : npfloat) (pca : bool) (n_components : nat) : result band :=
  if pca then Raise NameError
  else
    augCols ← mapM (fun f =>
                 let feat := nth f (transpose n_samples n_feat data) [] in
                 noise ← np_random_normal (f_mul stdMult (np_std feat))
                                           (length feat) (draw0 + f);
                 Ok (zip_with f_add feat noise))
              (seq 0 n_feat);
    Ok (transpose n_feat n_samples augCols).

(** The normalisation of one band:
    [a[~np.isnan(a)] = scale(a[~np.isnan(a)])]. *)
Definition masked_scale (st : list image) : list image :=
  fst (fill_stack st (scale (filter not_nan (flatten_stack st)))).

(** [np.swapaxes(np.asarray(temp_interp), 0, 1)]: the array built from an
    empty list has one axis only. *)
Definition swapaxes01 (n_samples : nat) (t : list (list image)) : result tensor4 :=
  match t with
  | [] => Raise AxisError
  | _ => Ok (map (fun i => map (fun st => nth i st []) t) (seq 0 n_samples))
  end.

(** The four corner channels of the edgeless variant. *)
Definition corners (min_x min_y max_x max_y : R) : list point2 :=
  [(min_x, min_y); (min_x, max_y); (max_x, min_y); (max_x, max_y)].

(** [gen_images(locs, features, n_gridpoints, normalize, augment, pca,
    std_mult, n_components, edgeless)]. *)
Definition gen_images (locs : list point2) (features : ndarray2)
    (n_gridpoints : nat) (normalize augment pca : bool) (std_mult : npfloat)
    (n_components : nat) (edgeless : bool) : result tensor4 :=
  let nElectrodes := length locs in
  (* assert features.shape[1] % nElectrodes == 0 *)
  rem ← py_mod (ncols features) nElectrodes;
  _ ← py_assert (rem =? 0)%nat;
  n_colors ← py_truediv (ncols features) nElectrodes;
  let colors := range_int (py_int n_colors) in
  let feat_array_temp :=
    map (fun c => slice_cols (c * nElectrodes) (nElectrodes * (c + 1))
                             (rows features)) colors in
  let n_samples := length (rows features) in
  feat_array_temp ←
    (if augment then
       if pca then
         mapM (fun c => augment_EEG (c * nElectrodes) (nth c feat_array_temp [])
                          n_samples nElectrodes std_mult true n_components)
              colors
       else
         mapM (fun c => augment_EEG (c * nElectrodes) (nth c feat_array_temp [])
                          n_samples nElectrodes std_mult false n_components)
              colors
     else Ok feat_array_temp);
  (* the grid over the bounding box of the electrodes *)
  min_x ← py_min (map fst locs);
  max_x ← py_max (map fst locs);
  min_y ← py_min (map snd locs);
  max_y ← py_max (map snd locs);
  let grid := mgrid min_x max_x min_y max_y n_gridpoints in
  (* edgeless images: [range] is applied to [n_colors] itself *)
  '(locs, feat_array_temp) ←
    (if edgeless then
       emin_x ← py_min (map fst locs);
       emin_y ← py_min (map snd locs);
       emax_x ← py_max (map fst locs);
       emax_y ← py_max (map snd locs);
       let locs' := locs ++ corners emin_x emin_y emax_x emax_y in
       cs ← py_range n_colors;
       Ok (locs',
           foldl (fun fat c =>
                    <[c := map (fun r => r ++ replicate 4 (Finite 0%R))
                               (nth c fat [])]> fat)
                 feat_array_temp cs)
     else Ok (locs, feat_array_temp));
  (* interpolation: every temp_interp[c][i, :, :] of the arrays of zeros
     is overwritten *)
  let temp_interp :=
    map (fun c =>
           map (fun i =>
                  map (map (griddata locs (nth i (nth c feat_array_temp []) [])))
                      grid)
               (seq 0 n_samples))
        colors in
  (* normalisation and replacement of NaN *)
  let temp_interp :=
    map (fun st => map (map (map nan_to_num))
                       (if normalize then masked_scale st else st))
        temp_interp in
  swapaxes01 n_samples temp_interp.

(** ** The parts of the result *)

(** The interpolated images of band [c], one per sample, before the
    normalisation. *)
Definition interp_stack (locs : list point2) (features : ndarray2)
    (G : nat) (min_x max_x min_y max_y : R) (c : nat) : list image :=
  map (fun i =>
         map (map (griddata locs (band_values features (length locs) i c)))
             (mgrid min_x max_x min_y max_y G))
      (seq 0 (length (rows features))).

(** What the normalisation loop does to one band. *)
Definition post_process (normalize : bool) (st : list image) : list image :=
  map (map (map nan_to_num)) (if normalize then masked_scale st else st).

(** The tensor returned on an input that passes the assertion:
    [t[i, c] = temp_interp[c][i]]. *)
Definition tensor_of (normalize : bool) (locs : list point2)
    (features : ndarray2) (G : nat) (min_x max_x min_y max_y : R) (k : nat)
  : tensor4 :=
  map (fun i =>
         map (fun st : list image => nth i st [])
             (map (fun c => post_process normalize
                     (interp_stack locs features G min_x max_x min_y max_y c))
                  (seq 0 k)))
      (seq 0 (length (rows features))).

End Library.

(** ** Stand-ins for the library functions, used in the examples *)

Definition point2_eq_dec (p q : point2) : {p = q} + {p <> q}.
Proof.
  destruct p as [px py], q as [qx qy].
  destruct (Req_dec_T px qx) as [Hx|Hx]; [|right; congruence].
  destruct (Req_dec_T py qy) as [Hy|Hy]; [|right; congruence].
  left. congruence.
Defined.

(** An interpolant that is right at the electrodes and has no value
    elsewhere: it agrees with the cubic interpolant at every electrode
    position and at every point outside the convex hull of the
    electrodes. *)
Fixpoint vertex_griddata (locs : list point2) (values : list npfloat)
    (p : point2) : npfloat :=
  match locs, values with
  | q :: locs', v :: values' =>
      if point2_eq_dec p q then v else vertex_griddata locs' values' p
  | _, _ => NaN
  end.

Definition to_real (x : npfloat) : R :=
  match x with Finite r => r | _ => 0%R end.

Definition Rsum (l : list R) : R := fold_right Rplus 0%R l.

(** Standardisation to zero mean and unit variance; a zero deviation is
    replaced by one. *)
Definition standardize (l : list npfloat) : list npfloat :=
  let rs := map to_real l in
  let n := INR (length rs) in
  let mu := (Rsum rs / n)%R in
  let sd := sqrt (Rsum (map (fun r => (r - mu) ^ 2)%R rs) / n) in
  let sd := if Req_dec_T sd 0 then 1%R else sd in
  map (fun r => Finite ((r - mu) / sd)%R) rs.

Definition zero_std (l : list npfloat) : npfloat := Finite 0%R.

Definition zero_noise (s : npfloat) (n k : nat) : result (list npfloat) :=
  Ok (replicate n (Finite 0%R)).

(** ** Example inputs *)

(** Three electrodes at the corners of a triangle, one sample, one band. *)
Definition tri_locs : list point2 := [(0, 0); (1, 0); (0, 1)]%R.

Definition tri_features : ndarray2 :=
  {| ncols := 3; rows := [[Finite 1; Finite 2; Finite 3]]%R |}.

(** Two electrodes: three feature columns are not a multiple. *)
Definition two_locs : list point2 := [(0, 0); (1, 0)]%R.

Abbreviation example_gen_images :=
  (gen_images vertex_griddata standardize zero_std zero_noise).

(** ** The number of colours *)

Lemma py_int_truediv (k nE : nat) :
  nE <> 0%nat ->
  py_int (PyFloat (Z.of_nat (k * nE) # Pos.of_nat nE)) = Z.of_nat k.
Proof.
  intros HnE. cbn [py_int Qnum Qden].
  assert (Hpos : Z.pos (Pos.of_nat nE) = Z.of_nat nE).
  { destruct nE as [|n]; [congruence|]. lia. }
  rewrite Hpos, Nat2Z.inj_mul.
  rewrite Z.quot_mul by lia. reflexivity.
Qed.

Lemma py_int_truediv_nonneg (a nE : nat) :
  (0 <= py_int (PyFloat (Z.of_nat a # Pos.of_nat nE)))%Z.
Proof.
  cbn [py_int Qnum Qden]. apply Z.quot_pos; lia.
Qed.

Lemma range_int_of_nat (k : nat) : range_int (Z.of_nat k) = seq 0 k.
Proof. unfold range_int. rewrite Nat2Z.id. reflexivity. Qed.

(** ** The bounding box *)

Lemma fold_min_spec (l : list R) (x : R) :
  is_min (fold_left (fun m y => if Rlt_dec y m then y else m) l x) (x :: l).
Proof.
  revert x. induction l as [|y l IH]; intros x; cbn [fold_left].
  - split; [left; reflexivity|]. intros z [<-|[]]. lra.
  - destruct (Rlt_dec y x) as [Hlt|Hge].
    + destruct (IH y) as [Hin Hle]. split.
      * destruct Hin as [<-|Hin]; [right; left; reflexivity | right; right; exact Hin].
      * intros z [<-|Hz]; [|apply Hle; exact Hz].
        specialize (Hle y (or_introl eq_refl)). lra.
    + destruct (IH x) as [Hin Hle]. split.
      * destruct Hin as [<-|Hin]; [left; reflexivity | right; right; exact Hin].
      * intros z [<-|[<-|Hz]].
        -- apply Hle. left. reflexivity.
        -- specialize (Hle x (or_introl eq_refl)). lra.
        -- apply Hle. right. exact Hz.
Qed.

Lemma fold_max_spec (l : list R) (x : R) :
  is_max (fold_left (fun m y => if Rgt_dec y m then y else m) l x) (x :: l).
Proof.
  revert x. induction l as [|y l IH]; intros x; cbn [fold_left].
  - split; [left; reflexivity|]. intros z [<-|[]]. lra.
  - destruct (Rgt_dec y x) as [Hgt|Hle'].
    + destruct (IH y) as [Hin Hle]. split.
      * destruct Hin as [<-|Hin]; [right; left; reflexivity | right; right; exact Hin].
      * intros z [<-|Hz]; [|apply Hle; exact Hz].
        specialize (Hle y (or_introl eq_refl)). lra.
    + destruct (IH x) as [Hin Hle]. split.
      * destruct Hin as [<-|Hin]; [left; reflexivity | right; right; exact Hin].
      * intros z [<-|[<-|Hz]].
        -- apply Hle. left. reflexivity.
        -- specialize (Hle x (or_introl eq_refl)). lra.
        -- apply Hle. right. exact Hz.
Qed.

Lemma py_min_Ok (l : list R) :
  l <> [] -> exists m, py_min l = Ok m /\ is_min m l.
Proof.
  destruct l as [|x l]; [congruence|]. intros _.
  eexists. split; [reflexivity | apply fold_min_spec].
Qed.

Lemma py_max_Ok (l : list R) :
  l <> [] -> exists m, py_max l = Ok m /\ is_max m l.
Proof.
  destruct l as [|x l]; [congruence|]. intros _.
  eexists. split; [reflexivity | apply fold_max_spec].
Qed.

Lemma mgrid_lookup (lo0 hi0 lo1 hi1 : R) (n a b : nat) :
  (a < n)%nat -> (b < n)%nat ->
  mgrid lo0 hi0 lo1 hi1 n !! a ≫= (.!! b)
  = Some (grid_coord lo0 hi0 n a, grid_coord lo1 hi1 n b).
Proof.
  intros Ha Hb. unfold mgrid, mgrid_axis.
  rewrite !lookup_map, lookup_seq_lt by exact Ha. cbn.
  rewrite !lookup_map, lookup_seq_lt by exact Hb. reflexivity.
Qed.

(** The grid starts at the lower bound and, with two points or more,
    ends at the upper bound. *)
Lemma grid_coord_first (lo hi : R) (n : nat) : grid_coord lo hi n 0 = lo.
Proof. unfold grid_coord. cbn [INR]. lra. Qed.

Lemma grid_coord_last (lo hi : R) (n : nat) :
  (2 <= n)%nat -> grid_coord lo hi n (n - 1) = hi.
Proof.
  intros Hn. unfold grid_coord.
  destruct (Nat.eqb_spec n 1) as [->|_]; [lia|].
  assert (INR (n - 1) <> 0%R) by (apply not_0_INR; lia).
  field. assumption.
Qed.

(** ** Properties of [gen_images] *)

Section Properties.

Variable griddata : list point2 -> list npfloat -> point2 -> npfloat.
Variable scale : list npfloat -> list npfloat.
Variable np_std : list npfloat -> npfloat.
Variable np_random_normal : npfloat -> nat -> nat -> result (list npfloat).

Local Abbreviation gen_images' :=
  (gen_images griddata scale np_std np_random_normal).
Local Abbreviation interp_stack' := (interp_stack griddata).
Local Abbreviation post_process' := (post_process scale).

Lemma nan_to_num_finite (x : npfloat) : is_finite (nan_to_num x) = true.
Proof. destruct x; reflexivity. Qed.

Lemma post_process_finite (normalize : bool) (st : list image) :
  Forall image_finite (post_process' normalize st).
Proof.
  unfold post_process, image_finite.
  apply Forall_map, Forall_forall. intros im _.
  apply Forall_map, Forall_forall. intros row _.
  apply Forall_map, Forall_forall. intros x _.
  apply nan_to_num_finite.
Qed.

Lemma swapaxes01_finite (n : nat) (T : list (list image)) (t : tensor4) :
  swapaxes01 n T = Ok t ->
  Forall (Forall image_finite) T ->
  tensor_finite t.
Proof.
  intros Hsw HT. unfold swapaxes01 in Hsw.
  assert (Ht : t = map (fun i => map (fun st => nth i st []) T) (seq 0 n)).
  { destruct T; [discriminate | congruence]. }
  subst t. unfold tensor_finite.
  apply Forall_map, Forall_forall. intros i _.
  apply Forall_map. eapply Forall_impl; [exact HT|].
  intros st Hst. cbn.
  destruct (nth_in_or_default i st []) as [Hin | ->].
  - apply list_elem_of_In in Hin.
    rewrite Forall_forall in Hst. apply Hst. exact Hin.
  - constructor.
Qed.

(** With [augment=False] and [edgeless=False], whatever the input, the
    function either raises or returns the bands after their
    post-processing. *)
Lemma gen_images_plain_inv (locs : list point2) (features : ndarray2)
    (G : nat) (normalize : bool) (std_mult : npfloat) (n_components : nat)
    (t : tensor4) :
  gen_images' locs features G normalize false false std_mult n_components false
  = Ok t ->
  exists T : list (list image),
    swapaxes01 (length (rows features)) (map (post_process' normalize) T) = Ok t.
Proof.
  unfold gen_images. intros H.
  repeat (apply bind_Ok in H; destruct H as (? & ? & H)).
  match type of H with
  | context [let '(_, _) := ?p in _] => destruct p as [locs' fat]
  end.
  eexists. exact H.
Qed.

Lemma map_nonempty {A B : Type} (f : A -> B) (l : list A) :
  length l <> 0%nat -> map f l <> [].
Proof. destruct l; [intros H; now contradiction H | discriminate]. Qed.

Lemma nth_slice_cols (lo hi i : nat) (m : list (list npfloat)) :
  (i < length m)%nat ->
  nth i (slice_cols lo hi m) [] = take (hi - lo) (drop lo (nth i m [])).
Proof.
  intros Hi. unfold slice_cols.
  rewrite (nth_indep _ [] (take (hi - lo) (drop lo [])))
    by (rewrite length_map; exact Hi).
  apply (map_nth (fun r => take (hi - lo) (drop lo r))).
Qed.

Lemma nth_map_seq {A : Type} (f : nat -> A) (d : A) (n c : nat) :
  (c < n)%nat -> nth c (map f (seq 0 n)) d = f c.
Proof.
  intros Hc.
  rewrite (nth_indep _ d (f 0%nat)) by (rewrite length_map, length_seq; exact Hc).
  rewrite (map_nth f), seq_nth by exact Hc. reflexivity.
Qed.

(** On an input that passes the assertion, with [augment=False] and
    [edgeless=False], the function comes down to the interpolation of
    every band over the grid of the bounding box, its post-processing and
    the exchange of the first two axes. *)
Lemma gen_images_valid (locs : list point2) (features : ndarray2)
    (G : nat) (normalize : bool) (std_mult : npfloat) (n_components k : nat) :
  length locs <> 0%nat ->
  ncols features = (k * length locs)%nat ->
  exists min_x max_x min_y max_y,
    is_min min_x (map fst locs) /\ is_max max_x (map fst locs) /\
    is_min min_y (map snd locs) /\ is_max max_y (map snd locs) /\
    gen_images' locs features G normalize false false std_mult n_components false
    = swapaxes01 (length (rows features))
        (map (fun c => post_process' normalize
                         (interp_stack' locs features G min_x max_x min_y max_y c))
             (seq 0 k)).
Proof.
  intros HnE Hcols.
  assert (Hfst : map fst locs <> []) by (apply map_nonempty; exact HnE).
  assert (Hsnd : map snd locs <> []) by (apply map_nonempty; exact HnE).
  destruct (py_min_Ok _ Hfst) as (min_x & Emin_x & Hmin_x).
  destruct (py_max_Ok _ Hfst) as (max_x & Emax_x & Hmax_x).
  destruct (py_min_Ok _ Hsnd) as (min_y & Emin_y & Hmin_y).
  destruct (py_max_Ok _ Hsnd) as (max_y & Emax_y & Hmax_y).
  exists min_x, max_x, min_y, max_y. repeat (split; [assumption|]).
  unfold gen_images, py_mod, py_truediv.
  destruct (Nat.eqb_spec (length locs) 0) as [Hz|_]; [contradiction|].
  rewrite Hcols, Nat.Div0.mod_mul. cbn [mbind result_bind py_assert Nat.eqb].
  rewrite py_int_truediv by exact HnE. rewrite range_int_of_nat.
  rewrite Emin_x, Emax_x, Emin_y, Emax_y. cbn [mbind result_bind].
  f_equal. rewrite map_map. apply map_ext_in. intros c Hc.
  apply in_seq in Hc. unfold post_process.
  match goal with
  | |- context [masked_scale scale ?st] =>
      assert (Hst : st = interp_stack' locs features G min_x max_x min_y max_y c)
  end.
  { unfold interp_stack. apply map_ext_in. intros i Hi. apply in_seq in Hi.
    rewrite nth_map_seq by lia. rewrite nth_slice_cols by lia.
    unfold band_values.
    replace (length locs * (c + 1) - c * length locs)%nat
      with (length locs) by lia.
    reflexivity. }
  rewrite Hst. reflexivity.
Qed.

(** With [edgeless=True] the function never returns: [n_colors] is the
    result of a true division, a [float], and [range(n_colors)] is
    reached on every path that has not raised before. *)
Lemma gen_images_edgeless_never_returns (locs : list point2)
    (features : ndarray2) (G : nat) (normalize augment pca : bool)
    (std_mult : npfloat) (n_components : nat) (t : tensor4) :
  gen_images' locs features G normalize augment pca std_mult n_components true
  <> Ok t.
Proof.
  unfold gen_images. intros H.
  repeat (apply bind_Ok in H; destruct H as (? & ? & H)).
  match goal with
  | Hdiv : py_truediv _ _ = Ok ?n |- _ =>
      unfold py_truediv in Hdiv;
      destruct (length locs =? 0)%nat; [discriminate Hdiv|];
      injection Hdiv as <-
  end.
  match goal with
  | Hedge : _ ≫= _ = Ok _ |- _ =>
      repeat (apply bind_Ok in Hedge; destruct Hedge as (? & ? & Hedge))
  end.
  match goal with
  | Hr : py_range (PyFloat _) = Ok _ |- _ => discriminate Hr
  end.
Qed.

Lemma mapM_Ok {A B : Type} (g : A -> result B) (l : list A) :
  (forall x, exists y, g x = Ok y) -> exists ys, mapM g l = Ok ys.
Proof.
  intros Hg. induction l as [|x l [ys IH]]; [exists []; reflexivity|].
  destruct (Hg x) as [y Hy]. exists (y :: ys).
  cbn [mapM]. rewrite Hy. cbn [mbind result_bind]. rewrite IH. reflexivity.
Qed.

Lemma augment_EEG_noise_Ok (draw0 : nat) (data : band) (n_samples n_feat : nat)
    (stdMult : npfloat) (n_components : nat) :
  (forall s n k, exists noise, np_random_normal s n k = Ok noise) ->
  exists aug,
    augment_EEG np_std np_random_normal draw0 data n_samples n_feat stdMult
                false n_components = Ok aug.
Proof.
  intros Hrng. unfold augment_EEG.
  match goal with
  | |- context [mapM ?g ?l] => destruct (mapM_Ok g l) as [cols Hcols]
  end.
  - intros fcol. destruct (Hrng (f_mul stdMult
                                   (np_std (nth fcol (transpose n_samples n_feat data) [])))
                                (length (nth fcol (transpose n_samples n_feat data) []))
                                (draw0 + fcol)%nat) as [noise Hnoise].
    rewrite Hnoise. eexists. reflexivity.
  - rewrite Hcols. eexists. reflexivity.
Qed.

(** C4 (as amended). With [edgeless=True], [gen_images] never returns a
    value.  On every input that passes the assertion (at least one
    electrode, the feature columns a multiple of the electrode count) and
    on which the augmentation does not raise ([augment=False], or
    [pca=False] and the random generator returns), it raises [TypeError],
    at [range(n_colors)]: [n_colors] is the result of a true division, a
    [float]. *)
Theorem gen_images_edgeless_raises (locs : list point2) (features : ndarray2)
    (G : nat) (normalize augment pca : bool) (std_mult : npfloat)
    (n_components : nat) :
  (forall t,
      gen_images' locs features G normalize augment pca std_mult n_components
                  true <> Ok t)
  /\ (length locs <> 0%nat ->
      (ncols features mod length locs = 0)%nat ->
      augment = false
      \/ (pca = false
          /\ forall s n k, exists noise, np_random_normal s n k = Ok noise) ->
      gen_images' locs features G normalize augment pca std_mult n_components
                  true = Raise TypeError).
Proof.
  split; [intros t; apply gen_images_edgeless_never_returns|].
  intros HnE Hmod Haug.
  assert (Hfst : map fst locs <> []) by (apply map_nonempty; exact HnE).
  assert (Hsnd : map snd locs <> []) by (apply map_nonempty; exact HnE).
  destruct (py_min_Ok _ Hfst) as (min_x & Emin_x & _).
  destruct (py_max_Ok _ Hfst) as (max_x & Emax_x & _).
  destruct (py_min_Ok _ Hsnd) as (min_y & Emin_y & _).
  destruct (py_max_Ok _ Hsnd) as (max_y & Emax_y & _).
  unfold gen_images, py_mod, py_truediv.
  destruct (Nat.eqb_spec (length locs) 0) as [Hz|_]; [contradiction|].
  rewrite Hmod. cbn [mbind result_bind py_assert Nat.eqb].
  destruct Haug as [->|[-> Hrng]].
  - cbn [mbind result_bind].
    rewrite Emin_x, Emax_x, Emin_y, Emax_y. reflexivity.
  - destruct augment.
    + match goal with
      | |- context [mapM ?g ?l] => destruct (mapM_Ok g l) as [fat Hfat]
      end.
      { intros c. apply augment_EEG_noise_Ok. exact Hrng. }
      rewrite Hfat. cbn [mbind result_bind].
      rewrite Emin_x, Emax_x, Emin_y, Emax_y. reflexivity.
    + cbn [mbind result_bind].
      rewrite Emin_x, Emax_x, Emin_y, Emax_y. reflexivity.
Qed.

End Properties.

(** ** Masked assignment: shape and content *)

Lemma fill_row_length (row vals : list npfloat) :
  length (fill_row row vals).1 = length row.
Proof.
  revert vals. induction row as [|x row IH]; intros vals; cbn [fill_row].
  - reflexivity.
  - destruct (isnan x).
    + specialize (IH vals). destruct (fill_row row vals). cbn in *. lia.
    + destruct vals as [|y vals].
      * specialize (IH []). destruct (fill_row row []). cbn in *. lia.
      * specialize (IH vals). destruct (fill_row row vals). cbn in *. lia.
Qed.

Lemma map_accum_Forall2 {A B S : Type} (P : A -> B -> Prop)
    (f : A -> S -> B * S) (l : list A) (s : S) :
  (forall x s', P x (f x s').1) -> Forall2 P l (map_accum f l s).1.
Proof.
  intros Hf. revert s. induction l as [|x l IH]; intros s; cbn [map_accum].
  - constructor.
  - specialize (Hf x s). destruct (f x s) as [y s1].
    specialize (IH s1). destruct (map_accum f l s1) as [ys s2].
    cbn in *. constructor; assumption.
Qed.

(** Entry by entry, [map_accum] applies the function to the element, in
    some state. *)
Lemma map_accum_lookup {A B S : Type} (f : A -> S -> B * S) (l : list A)
    (s : S) (i : nat) (x : A) :
  l !! i = Some x -> exists s', (map_accum f l s).1 !! i = Some (f x s').1.
Proof.
  revert s i. induction l as [|y l IH]; intros s i Hi; [discriminate|].
  cbn [map_accum]. destruct (f y s) as [z s1] eqn:Hf.
  destruct i as [|i].
  - injection Hi as ->. exists s.
    destruct (map_accum f l s1). cbn. rewrite Hf. reflexivity.
  - destruct (IH s1 i Hi) as (s' & Hs').
    exists s'. destruct (map_accum f l s1). exact Hs'.
Qed.

Lemma fill_row_keeps_nan (row vals : list npfloat) (j : nat) :
  row !! j = Some NaN -> (fill_row row vals).1 !! j = Some NaN.
Proof.
  revert vals j. induction row as [|x row IH]; intros vals j Hj; [discriminate|].
  cbn [fill_row]. destruct j as [|j].
  - injection Hj as ->. cbn [isnan]. destruct (fill_row row vals). reflexivity.
  - cbn in Hj. destruct (isnan x).
    + specialize (IH vals j Hj). destruct (fill_row row vals). exact IH.
    + destruct vals as [|y vals].
      * specialize (IH [] j Hj). destruct (fill_row row []). exact IH.
      * specialize (IH vals j Hj). destruct (fill_row row vals). exact IH.
Qed.

(** The masked assignment keeps NaN where it was. *)
Lemma fill_stack_keeps_nan (st : list image) (vals : list npfloat)
    (i a b : nat) :
  stack_entry st i a b = Some NaN ->
  stack_entry (fill_stack st vals).1 i a b = Some NaN.
Proof.
  unfold stack_entry, pixel. intros H.
  destruct (st !! i) as [im|] eqn:Him; [|discriminate]. cbn in H.
  destruct (im !! a) as [row|] eqn:Hrow; [|discriminate]. cbn in H.
  destruct (map_accum_lookup fill_image st vals i im Him) as (v1 & Hv1).
  unfold fill_stack. rewrite Hv1. cbn.
  destruct (map_accum_lookup fill_row im v1 a row Hrow) as (v2 & Hv2).
  unfold fill_image at 1. rewrite Hv2. cbn.
  apply fill_row_keeps_nan. exact H.
Qed.

Lemma fill_row_app (r1 r2 vals : list npfloat) :
  fill_row (r1 ++ r2) vals
  = let '(a, v1) := fill_row r1 vals in
    let '(b, v2) := fill_row r2 v1 in (a ++ b, v2).
Proof.
  revert vals. induction r1 as [|x r1 IH]; intros vals; cbn [fill_row app].
  - destruct (fill_row r2 vals). reflexivity.
  - destruct (isnan x).
    + rewrite IH. destruct (fill_row r1 vals) as [a v1].
      destruct (fill_row r2 v1). reflexivity.
    + destruct vals as [|y vals].
      * rewrite IH. destruct (fill_row r1 []) as [a v1].
        destruct (fill_row r2 v1). reflexivity.
      * rewrite IH. destruct (fill_row r1 vals) as [a v1].
        destruct (fill_row r2 v1). reflexivity.
Qed.

(** Filling an image row after row is filling its entries in array
    order. *)
Lemma fill_image_concat (im : image) (vals : list npfloat) :
  let '(im', v) := fill_image im vals in
  fill_row (concat im) vals = (concat im', v).
Proof.
  revert vals. induction im as [|row im IH]; intros vals.
  - reflexivity.
  - cbn [fill_image map_accum concat]. rewrite fill_row_app.
    destruct (fill_row row vals) as [row' v1].
    specialize (IH v1). unfold fill_image in IH.
    destruct (map_accum fill_row im v1) as [im' v2].
    rewrite IH. reflexivity.
Qed.

Lemma fill_stack_flatten (st : list image) (vals : list npfloat) :
  let '(st', v) := fill_stack st vals in
  fill_row (flatten_stack st) vals = (flatten_stack st', v).
Proof.
  unfold flatten_stack.
  revert vals. induction st as [|im st IH]; intros vals.
  - reflexivity.
  - cbn [fill_stack map_accum map concat]. rewrite fill_row_app.
    pose proof (fill_image_concat im vals) as Him.
    destruct (fill_image im vals) as [im' v1]. rewrite Him.
    specialize (IH v1). unfold fill_stack in IH.
    destruct (map_accum fill_image st v1) as [st' v2].
    rewrite IH. reflexivity.
Qed.

(** When there is one value for every entry that is not NaN, the values
    are found back at those entries, in order. *)
Lemma fill_row_select (row vals : list npfloat) :
  length vals = length (filter not_nan row) ->
  mask_select row (fill_row row vals).1 = vals.
Proof.
  revert vals. induction row as [|x row IH]; intros vals Hlen.
  - destruct vals; [reflexivity | discriminate].
  - cbn [fill_row].
    destruct x; cbn [isnan]; cbn in Hlen;
      try (destruct vals as [|y vals]; [discriminate|];
           injection Hlen as Hlen);
      specialize (IH vals Hlen); destruct (fill_row row vals);
      cbn in *; congruence.
Qed.

Lemma mask_select_map (f : npfloat -> npfloat) (src out : list npfloat) :
  mask_select src (map f out) = map f (mask_select src out).
Proof.
  revert out. induction src as [|x src IH]; intros [|y out]; cbn; try reflexivity.
  destruct (isnan x); cbn; rewrite IH; reflexivity.
Qed.

Lemma flatten_stack_map (f : npfloat -> npfloat) (st : list image) :
  flatten_stack (map (map (map f)) st) = map f (flatten_stack st).
Proof.
  unfold flatten_stack. rewrite map_map.
  induction st as [|im st IH]; [reflexivity|].
  cbn [map concat]. rewrite map_app, <- IH. f_equal.
  clear. induction im as [|r im IH]; [reflexivity|].
  cbn [map concat]. rewrite map_app, IH. reflexivity.
Qed.

(** ** Shapes *)

Lemma Forall2_transfer {A B : Type} (P : A -> Prop) (Q : B -> Prop)
    (l : list A) (l' : list B) :
  Forall2 (fun x y => P x -> Q y) l l' -> Forall P l -> Forall Q l'.
Proof.
  induction 1 as [|x y l l' Hxy _ IH]; intros HP; [constructor|].
  inversion HP; subst. constructor; auto.
Qed.

Lemma fill_image_shape (G : nat) (im : image) (vals : list npfloat) :
  image_shape G im -> image_shape G (fill_image im vals).1.
Proof.
  intros [Hlen Hrows]. unfold fill_image.
  pose proof (map_accum_Forall2
                (fun r r' : list npfloat => length r = G -> length r' = G)
                fill_row im vals) as H2.
  assert (HF : Forall2 (fun r r' : list npfloat => length r = G -> length r' = G)
                 im (map_accum fill_row im vals).1).
  { apply H2. intros r s' Hr. rewrite fill_row_length. exact Hr. }
  split.
  - rewrite <- (Forall2_length _ _ _ HF). exact Hlen.
  - eapply Forall2_transfer; [exact HF | exact Hrows].
Qed.

Lemma fill_stack_shape (G : nat) (st : list image) (vals : list npfloat) :
  Forall (image_shape G) st ->
  length (fill_stack st vals).1 = length st
  /\ Forall (image_shape G) (fill_stack st vals).1.
Proof.
  intros Hst. unfold fill_stack.
  assert (HF : Forall2 (fun im im' : image => image_shape G im -> image_shape G im')
                 st (map_accum fill_image st vals).1).
  { apply map_accum_Forall2. intros im s'. apply fill_image_shape. }
  split.
  - symmetry. exact (Forall2_length _ _ _ HF).
  - eapply Forall2_transfer; [exact HF | exact Hst].
Qed.

Lemma map_image_shape (f : npfloat -> npfloat) (G : nat) (im : image) :
  image_shape G im -> image_shape G (map (map f) im).
Proof.
  intros [Hlen Hrows]. split.
  - rewrite length_map. exact Hlen.
  - apply Forall_map. eapply Forall_impl; [exact Hrows|].
    intros r Hr. cbn. rewrite length_map. exact Hr.
Qed.

Lemma mgrid_axis_length (lo hi : R) (n : nat) : length (mgrid_axis lo hi n) = n.
Proof. unfold mgrid_axis. rewrite length_map, length_seq. reflexivity. Qed.

Lemma mgrid_image_shape (g : point2 -> npfloat)
    (lo0 hi0 lo1 hi1 : R) (G : nat) :
  image_shape G (map (map g) (mgrid lo0 hi0 lo1 hi1 G)).
Proof.
  unfold mgrid. split.
  - rewrite !length_map. apply mgrid_axis_length.
  - apply Forall_map, Forall_map, Forall_forall. intros x _. cbn.
    rewrite !length_map. apply mgrid_axis_length.
Qed.

Lemma stack_entry_map (f : npfloat -> npfloat) (st : list image) (i a b : nat) :
  stack_entry (map (map (map f)) st) i a b = f <$> stack_entry st i a b.
Proof.
  unfold stack_entry, pixel. rewrite lookup_map.
  destruct (st !! i) as [im|]; [|reflexivity]. cbn.
  rewrite lookup_map. destruct (im !! a) as [row|]; [|reflexivity]. cbn.
  apply lookup_map.
Qed.

(** ** The interpolated bands *)

Section Interpolation.

Variable griddata : list point2 -> list npfloat -> point2 -> npfloat.
Variable scale : list npfloat -> list npfloat.
Variable np_std : list npfloat -> npfloat.
Variable np_random_normal : npfloat -> nat -> nat -> result (list npfloat).

Local Abbreviation gen_images' :=
  (gen_images griddata scale np_std np_random_normal).
Local Abbreviation interp_stack' := (interp_stack griddata).
Local Abbreviation post_process' := (post_process scale).
Local Abbreviation tensor_of' := (tensor_of griddata scale).

Lemma interp_stack_length locs features G min_x max_x min_y max_y c :
  length (interp_stack' locs features G min_x max_x min_y max_y c)
  = length (rows features).
Proof. unfold interp_stack. rewrite length_map, length_seq. reflexivity. Qed.

Lemma interp_stack_shape locs features G min_x max_x min_y max_y c :
  Forall (image_shape G)
         (interp_stack' locs features G min_x max_x min_y max_y c).
Proof.
  unfold interp_stack. apply Forall_map, Forall_forall. intros i _.
  apply mgrid_image_shape.
Qed.

Lemma interp_stack_entry locs features G min_x max_x min_y max_y c i a b :
  (i < length (rows features))%nat -> (a < G)%nat -> (b < G)%nat ->
  stack_entry (interp_stack' locs features G min_x max_x min_y max_y c) i a b
  = Some (griddata locs (band_values features (length locs) i c)
                   (grid_coord min_x max_x G a, grid_coord min_y max_y G b)).
Proof.
  intros Hi Ha Hb. unfold stack_entry, pixel, interp_stack.
  rewrite lookup_map, lookup_seq_lt by exact Hi. cbn.
  pose proof (mgrid_lookup min_x max_x min_y max_y G a b Ha Hb) as Hg.
  rewrite lookup_map.
  destruct (mgrid min_x max_x min_y max_y G !! a) as [row|]; [|discriminate].
  cbn in *. rewrite lookup_map, Hg. reflexivity.
Qed.

Lemma post_process_shape (normalize : bool) (G : nat) (st : list image) :
  Forall (image_shape G) st ->
  length (post_process' normalize st) = length st
  /\ Forall (image_shape G) (post_process' normalize st).
Proof.
  intros Hst. unfold post_process.
  assert (Hin : length (if normalize then masked_scale scale st else st)
                = length st
                /\ Forall (image_shape G)
                          (if normalize then masked_scale scale st else st)).
  { destruct normalize; [apply fill_stack_shape; exact Hst | split; auto]. }
  destruct Hin as [Hlen Hsh]. split.
  - rewrite length_map. exact Hlen.
  - apply Forall_map. eapply Forall_impl; [exact Hsh|].
    intros im Him. apply map_image_shape. exact Him.
Qed.

(** Where [scale] returns as many values as it is given, the values that
    are not NaN are replaced by their scaled values, in array order. *)
Lemma post_process_select (st : list image) :
  (forall l, length (scale l) = length l) ->
  mask_select (flatten_stack st) (flatten_stack (post_process' true st))
  = map nan_to_num (scale (filter not_nan (flatten_stack st))).
Proof.
  intros Hscale. unfold post_process, masked_scale.
  rewrite flatten_stack_map, mask_select_map. f_equal.
  pose proof (fill_stack_flatten st (scale (filter not_nan (flatten_stack st))))
    as Hflat.
  destruct (fill_stack st (scale (filter not_nan (flatten_stack st))))
    as [st' v] eqn:Hfill.
  cbn [fst].
  replace (flatten_stack st')
    with (fill_row (flatten_stack st)
                   (scale (filter not_nan (flatten_stack st)))).1
    by (rewrite Hflat; reflexivity).
  apply fill_row_select. apply Hscale.
Qed.

Lemma band_values_length (features : ndarray2) (nE k i c : nat) :
  wf_ndarray2 features -> ncols features = (k * nE)%nat ->
  (i < length (rows features))%nat -> (c < k)%nat ->
  length (band_values features nE i c) = nE.
Proof.
  intros Hwf Hcols Hi Hc. unfold band_values.
  assert (Hrow : length (nth i (rows features) []) = ncols features).
  { unfold wf_ndarray2 in Hwf. rewrite Forall_forall in Hwf. apply Hwf.
    apply list_elem_of_In, nth_In. exact Hi. }
  rewrite length_take, length_drop, Hrow, Hcols. nia.
Qed.

Lemma gen_images_returns (locs : list point2) (features : ndarray2)
    (G : nat) (normalize : bool) (std_mult : npfloat) (n_components k : nat) :
  length locs <> 0%nat -> k <> 0%nat ->
  ncols features = (k * length locs)%nat ->
  exists min_x max_x min_y max_y,
    (is_min min_x (map fst locs) /\ is_max max_x (map fst locs))
    /\ (is_min min_y (map snd locs) /\ is_max max_y (map snd locs))
    /\ gen_images' locs features G normalize false false std_mult n_components
                   false
       = Ok (tensor_of' normalize locs features G min_x max_x min_y max_y k).
Proof.
  intros HnE Hk Hcols.
  destruct (gen_images_valid griddata scale np_std np_random_normal
              locs features G normalize std_mult n_components k HnE Hcols)
    as (min_x & max_x & min_y & max_y & Hmin_x & Hmax_x & Hmin_y & Hmax_y & Heq).
  exists min_x, max_x, min_y, max_y.
  split; [split; assumption|]. split; [split; assumption|].
  rewrite Heq. unfold swapaxes01, tensor_of.
  destruct k as [|k']; [congruence | reflexivity].
Qed.

Lemma post_process_interp_shape normalize locs features G min_x max_x min_y max_y c :
  length (post_process' normalize
            (interp_stack' locs features G min_x max_x min_y max_y c))
  = length (rows features)
  /\ Forall (image_shape G)
            (post_process' normalize
               (interp_stack' locs features G min_x max_x min_y max_y c)).
Proof.
  destruct (post_process_shape normalize G _
              (interp_stack_shape locs features G min_x max_x min_y max_y c))
    as [Hl Hs].
  split; [|exact Hs]. rewrite Hl. apply interp_stack_length.
Qed.

Lemma tensor_of_shape normalize locs features G min_x max_x min_y max_y k :
  has_shape4 (tensor_of' normalize locs features G min_x max_x min_y max_y k)
             (length (rows features)) k G.
Proof.
  unfold tensor_of. split.
  - rewrite length_map, length_seq. reflexivity.
  - apply Forall_map, Forall_forall. intros i Hi.
    apply elem_of_seq in Hi. cbn. split.
    + rewrite !length_map, length_seq. reflexivity.
    + apply Forall_map, Forall_map, Forall_forall. intros c _. cbn.
      destruct (post_process_interp_shape normalize locs features G
                  min_x max_x min_y max_y c) as [Hl Hs].
      rewrite Forall_forall in Hs. apply Hs.
      apply list_elem_of_In, nth_In. lia.
Qed.

Lemma tensor_of_entry normalize locs features G min_x max_x min_y max_y k
    (i c a b : nat) :
  (i < length (rows features))%nat -> (c < k)%nat ->
  entry (tensor_of' normalize locs features G min_x max_x min_y max_y k) i c a b
  = stack_entry (post_process' normalize
                   (interp_stack' locs features G min_x max_x min_y max_y c))
                i a b.
Proof.
  intros Hi Hc. unfold entry, tensor_of.
  rewrite lookup_map, lookup_seq_lt by exact Hi. cbn.
  unfold stack_entry at 1.
  rewrite !lookup_map, lookup_seq_lt by exact Hc. cbn.
  unfold stack_entry.
  destruct (post_process_interp_shape normalize locs features G
              min_x max_x min_y max_y c) as [Hl _].
  destruct (lookup_lt_is_Some_2
              (post_process' normalize
                 (interp_stack' locs features G min_x max_x min_y max_y c)) i)
    as [im Him]; [lia|].
  rewrite Him. cbn. erewrite nth_lookup_Some by exact Him. reflexivity.
Qed.

(** [t[:, c]] is band [c] after its post-processing. *)
Lemma tensor_of_band normalize locs features G min_x max_x min_y max_y k c :
  (c < k)%nat ->
  map (fun s : list image => nth c s [])
      (tensor_of' normalize locs features G min_x max_x min_y max_y k)
  = post_process' normalize
      (interp_stack' locs features G min_x max_x min_y max_y c).
Proof.
  intros Hc. unfold tensor_of. rewrite map_map.
  destruct (post_process_interp_shape normalize locs features G
              min_x max_x min_y max_y c) as [Hl _].
  etransitivity; [|apply (map_nth_seq _ [])].
  rewrite Hl. apply map_ext_in. intros i Hi. cbn.
  erewrite (nth_lookup_Some (map _ (map _ (seq 0 k))) c)
    by (rewrite !lookup_map, lookup_seq_lt by exact Hc; reflexivity).
  reflexivity.
Qed.

(** Where the interpolation has no value the returned entry is zero. *)
Lemma tensor_of_nan_entry normalize locs features G min_x max_x min_y max_y k
    (i c a b : nat) :
  (i < length (rows features))%nat -> (c < k)%nat ->
  (a < G)%nat -> (b < G)%nat ->
  griddata locs (band_values features (length locs) i c)
           (grid_coord min_x max_x G a, grid_coord min_y max_y G b) = NaN ->
  entry (tensor_of' normalize locs features G min_x max_x min_y max_y k) i c a b
  = Some (Finite 0%R).
Proof.
  intros Hi Hc Ha Hb HNaN. rewrite tensor_of_entry by assumption.
  pose proof (interp_stack_entry locs features G
                min_x max_x min_y max_y c i a b Hi Ha Hb) as Hv.
  rewrite HNaN in Hv.
  unfold post_process. rewrite stack_entry_map.
  destruct normalize.
  - unfold masked_scale. rewrite (fill_stack_keeps_nan _ _ i a b Hv).
    reflexivity.
  - rewrite Hv. reflexivity.
Qed.

(** C7. With [augment=False] and [edgeless=False], every entry of the
    tensor [gen_images] returns is a finite number, whether [normalize]
    is set or not: the last step of the normalisation loop is
    [nan_to_num], and the entry is 0 wherever the interpolation is NaN.
    A tensor is returned when the feature columns are a positive multiple
    of the electrode count, [griddata] and [scale] being functions that
    return. *)
Theorem gen_images_entries_finite (locs : list point2) (features : ndarray2)
    (G : nat) (normalize : bool) (std_mult : npfloat) (n_components : nat) :
  (forall t,
      gen_images' locs features G normalize false false std_mult n_components
                  false = Ok t ->
      tensor_finite t)
  /\ (forall k,
        length locs <> 0%nat -> k <> 0%nat ->
        ncols features = (k * length locs)%nat ->
        exists t min_x max_x min_y max_y,
          gen_images' locs features G normalize false false std_mult
                      n_components false = Ok t
          /\ tensor_finite t
          /\ (is_min min_x (map fst locs) /\ is_max max_x (map fst locs))
          /\ (is_min min_y (map snd locs) /\ is_max max_y (map snd locs))
          /\ forall i c a b,
               (i < length (rows features))%nat -> (c < k)%nat ->
               (a < G)%nat -> (b < G)%nat ->
               griddata locs (band_values features (length locs) i c)
                        (grid_coord min_x max_x G a, grid_coord min_y max_y G b)
               = NaN ->
               entry t i c a b = Some (Finite 0%R)).
Proof.
  assert (Hfin : forall t,
             gen_images' locs features G normalize false false std_mult
                         n_components false = Ok t ->
             tensor_finite t).
  { intros t Ht.
    apply gen_images_plain_inv in Ht. destruct Ht as (T & Ht).
    eapply swapaxes01_finite; [exact Ht|].
    apply Forall_map, Forall_forall. intros st _. apply post_process_finite. }
  split; [exact Hfin|].
  intros k HnE Hk Hcols.
  destruct (gen_images_returns locs features G normalize std_mult n_components
              k HnE Hk Hcols)
    as (min_x & max_x & min_y & max_y & Hx & Hy & Ht).
  exists (tensor_of' normalize locs features G min_x max_x min_y max_y k),
         min_x, max_x, min_y, max_y.
  split; [exact Ht|]. split; [apply Hfin; exact Ht|].
  split; [exact Hx|]. split; [exact Hy|].
  intros i c a b Hi Hc Ha Hb HNaN. apply tensor_of_nan_entry; assumption.
Qed.

(** C2 (as amended). For electrode positions [locs] (at least one) and a
    feature matrix whose [k * n_electrodes] columns hold [k >= 1] bands,
    [gen_images] with [augment=False] and [edgeless=False] returns a
    tensor of shape [[n_samples, k, n_gridpoints, n_gridpoints]].  Its
    entry [[i, c, a, b]] comes from the cubic interpolation of the
    [n_electrodes] values of band [c] of sample [i] at the point
    [(a, b)] of the grid that spans the bounding box
    [[min_x, max_x] x [min_y, max_y]] of the electrodes, after the
    normalisation loop: without [normalize] it is [nan_to_num] of the
    interpolated value; with [normalize] the values of band [c] that are
    not NaN, over all samples, are replaced by [nan_to_num] of their
    [scale]d values; in both cases it is 0 where the interpolation is
    NaN. *)
Theorem gen_images_interpolation (locs : list point2) (features : ndarray2)
    (G : nat) (normalize : bool) (std_mult : npfloat) (n_components k : nat) :
  length locs <> 0%nat -> k <> 0%nat ->
  wf_ndarray2 features ->
  ncols features = (k * length locs)%nat ->
  (forall l, length (scale l) = length l) ->
  exists t min_x max_x min_y max_y,
    gen_images' locs features G normalize false false std_mult n_components
                false = Ok t
    /\ has_shape4 t (length (rows features)) k G
    /\ (is_min min_x (map fst locs) /\ is_max max_x (map fst locs))
    /\ (is_min min_y (map snd locs) /\ is_max max_y (map snd locs))
    /\ (forall i c a b,
          (i < length (rows features))%nat -> (c < k)%nat ->
          (a < G)%nat -> (b < G)%nat ->
          let values := band_values features (length locs) i c in
          let v := griddata locs values
                     (grid_coord min_x max_x G a, grid_coord min_y max_y G b) in
          length values = length locs
          /\ (normalize = false -> entry t i c a b = Some (nan_to_num v))
          /\ (v = NaN -> entry t i c a b = Some (Finite 0%R)))
    /\ (normalize = true ->
        forall c, (c < k)%nat ->
          let interp :=
            flatten_stack
              (interp_stack' locs features G min_x max_x min_y max_y c) in
          mask_select interp (flatten_stack (map (fun s => nth c s []) t))
          = map nan_to_num (scale (filter not_nan interp))).
Proof.
  intros HnE Hk Hwf Hcols Hscale.
  destruct (gen_images_returns locs features G normalize std_mult n_components
              k HnE Hk Hcols)
    as (min_x & max_x & min_y & max_y & Hx & Hy & Ht).
  exists (tensor_of' normalize locs features G min_x max_x min_y max_y k),
         min_x, max_x, min_y, max_y.
  split; [exact Ht|]. split; [apply tensor_of_shape|].
  split; [exact Hx|]. split; [exact Hy|]. split.
  - intros i c a b Hi Hc Ha Hb values v.
    split; [apply (band_values_length features (length locs) k); assumption|].
    split.
    + intros ->. rewrite tensor_of_entry by assumption.
      unfold post_process. rewrite stack_entry_map.
      rewrite (interp_stack_entry locs features G min_x max_x min_y max_y
                                  c i a b Hi Ha Hb).
      reflexivity.
    + intros HNaN. apply tensor_of_nan_entry; assumption.
  - intros -> c Hc interp.
    rewrite tensor_of_band by exact Hc.
    apply post_process_select. exact Hscale.
Qed.

End Interpolation.

(** ** Examples *)

Lemma standardize_length (l : list npfloat) : length (standardize l) = length l.
Proof. unfold standardize. rewrite !length_map. reflexivity. Qed.

Lemma is_min_unique (m m' : R) (l : list R) : is_min m l -> is_min m' l -> m = m'.
Proof.
  intros [Hin Hle] [Hin' Hle']. apply Rle_antisym; auto.
Qed.

Lemma is_max_unique (m m' : R) (l : list R) : is_max m l -> is_max m' l -> m = m'.
Proof.
  intros [Hin Hle] [Hin' Hle']. apply Rle_antisym; auto.
Qed.

Lemma tri_bounding_box :
  (is_min 0 (map fst tri_locs) /\ is_max 1 (map fst tri_locs))
  /\ (is_min 0 (map snd tri_locs) /\ is_max 1 (map snd tri_locs)).
Proof. repeat split; try (cbn; tauto); intros x Hx; cbn in Hx;
       repeat (destruct Hx as [<-|Hx]; [lra|]); destruct Hx. Qed.

Lemma grid_coord_unit_corner : grid_coord 0 1 2 1 = 1%R.
Proof. unfold grid_coord. cbn. lra. Qed.

(** The corner (1, 1) of the bounding box lies outside the triangle: the
    interpolant has no value there. *)
Lemma vertex_griddata_tri_corner (values : list npfloat) :
  vertex_griddata tri_locs values (1, 1)%R = NaN.
Proof.
  unfold tri_locs.
  destruct values as [|v0 [|v1 [|v2 values]]]; cbn [vertex_griddata];
    repeat match goal with
           | |- context [point2_eq_dec ?p ?q] =>
               destruct (point2_eq_dec p q) as [Heq|_];
               [injection Heq; intros; lra|]
           end;
    reflexivity.
Qed.

(** On the triangle, with two grid points per axis, the grid point (1, 1)
    is the corner of the bounding box opposite to the right angle.  The
    interpolation has no value there (NaN), and the entry of the returned
    tensor is 0, with and without [normalize]: the band is not the
    interpolation itself. *)
Lemma gen_images_zero_outside_hull :
  vertex_griddata tri_locs (band_values tri_features 3 0 0)
                  (grid_coord 0 1 2 1, grid_coord 0 1 2 1) = NaN
  /\ (exists t,
        example_gen_images tri_locs tri_features 2 true false false
                           (Finite (1 / 10)%R) 2 false = Ok t
        /\ entry t 0 0 1 1 = Some (Finite 0%R))
  /\ (exists t,
        example_gen_images tri_locs tri_features 2 false false false
                           (Finite (1 / 10)%R) 2 false = Ok t
        /\ entry t 0 0 1 1 = Some (Finite 0%R)).
Proof.
  assert (HNaN : vertex_griddata tri_locs (band_values tri_features 3 0 0)
                   (grid_coord 0 1 2 1, grid_coord 0 1 2 1) = NaN).
  { rewrite grid_coord_unit_corner. apply vertex_griddata_tri_corner. }
  assert (Hex : forall normalize,
             exists t,
               example_gen_images tri_locs tri_features 2 normalize false false
                                  (Finite (1 / 10)%R) 2 false = Ok t
               /\ entry t 0 0 1 1 = Some (Finite 0%R)).
  { intros normalize.
    destruct (gen_images_returns vertex_griddata standardize zero_std zero_noise
                tri_locs tri_features 2 normalize (Finite (1 / 10)%R) 2 1)
      as (min_x & max_x & min_y & max_y & [Hmin_x Hmax_x] & [Hmin_y Hmax_y] & Ht);
      [discriminate | discriminate | reflexivity |].
    destruct tri_bounding_box as [[Bmin_x Bmax_x] [Bmin_y Bmax_y]].
    rewrite (is_min_unique _ _ _ Hmin_x Bmin_x),
            (is_max_unique _ _ _ Hmax_x Bmax_x),
            (is_min_unique _ _ _ Hmin_y Bmin_y),
            (is_max_unique _ _ _ Hmax_y Bmax_y) in Ht.
    eexists. split; [exact Ht|].
    apply tensor_of_nan_entry; cbn [length rows tri_features tri_locs];
      try lia.
    exact HNaN. }
  split; [exact HNaN|]. split; apply Hex.
Qed.

Lemma gen_images_interpolation_witness :
  exists t,
    example_gen_images tri_locs tri_features 2 true false false
                       (Finite (1 / 10)%R) 2 false = Ok t
    /\ has_shape4 t 1 1 2.
Proof.
  destruct (gen_images_interpolation vertex_griddata standardize zero_std
              zero_noise tri_locs tri_features 2 true (Finite (1 / 10)%R) 2 1)
    as (t & min_x & max_x & min_y & max_y & Ht & Hshape & _).
  - discriminate.
  - discriminate.
  - repeat constructor.
  - reflexivity.
  - apply standardize_length.
  - exists t. split; [exact Ht | exact Hshape].
Defined.

Lemma gen_images_entries_finite_witness :
  exists t,
    example_gen_images tri_locs tri_features 2 true false false
                       (Finite (1 / 10)%R) 2 false = Ok t
    /\ tensor_finite t.
Proof.
  destruct (proj2 (gen_images_entries_finite vertex_griddata standardize
                     zero_std zero_noise tri_locs tri_features 2 true
                     (Finite (1 / 10)%R) 2)
                  1%nat)
    as (t & min_x & max_x & min_y & max_y & Ht & Hfin & _).
  - discriminate.
  - discriminate.
  - reflexivity.
  - exists t. split; [exact Ht | exact Hfin].
Defined.

(** With three feature columns for two electrodes the assertion fails
    before [range(n_colors)] is reached: the exception is not a
    [TypeError]. *)
Lemma gen_images_edgeless_assertion_error :
  example_gen_images two_locs tri_features 2 true false false
                     (Finite (1 / 10)%R) 2 true = Raise AssertionError
  /\ example_gen_images two_locs tri_features 2 true false false
                        (Finite (1 / 10)%R) 2 true <> Raise TypeError.
Proof.
  assert (H : example_gen_images two_locs tri_features 2 true false false
                (Finite (1 / 10)%R) 2 true = Raise AssertionError)
    by reflexivity.
  split; [exact H | rewrite H; discriminate].
Qed.

(** With [augment=True] and [pca=True] the name [PCA] is looked up before
    the edgeless branch. *)
Lemma gen_images_edgeless_name_error :
  example_gen_images tri_locs tri_features 2 true true true
                     (Finite (1 / 10)%R) 2 true = Raise NameError.
Proof. reflexivity. Qed.

Lemma gen_images_edgeless_raises_witness :
  example_gen_images tri_locs tri_features 2 true false false
                     (Finite (1 / 10)%R) 2 true = Raise TypeError
  /\ example_gen_images tri_locs tri_features 2 true true false
                        (Finite (1 / 10)%R) 2 true = Raise TypeError.
Proof.
  split.
  - apply (proj2 (gen_images_edgeless_raises vertex_griddata standardize
                    zero_std zero_noise tri_locs tri_features 2 true false
                    false (Finite (1 / 10)%R) 2)).
    + discriminate.
    + reflexivity.
    + left. reflexivity.
  - apply (proj2 (gen_images_edgeless_raises vertex_griddata standardize
                    zero_std zero_noise tri_locs tri_features 2 true true
                    false (Finite (1 / 10)%R) 2)).
    + discriminate.
    + reflexivity.
    + right. split; [reflexivity|]. intros s n k. eexists. reflexivity.
Defined.

End GenImages.

(* ===================================================================== *)
(** * Part I (end).  [eeg_to_images.ipynb]: the main cells                *)
(* ===================================================================== *)

Module ImagePipeline.
Import Python Projection GenImages.

(** What [matContent] holds: the feature matrices that were loaded and the
    image tensors the loop stores. *)
Inductive mat_value : Type :=
| MatArray (a : ndarray2)
| MatImages (t : tensor4).

(** The effects of the two cells, in the order they happen.  A call of
    [gen_images] is recorded with the matrix it is made for and its
    arguments.  The [print] calls are left out. *)
Inductive event : Type :=
| EvLoadmat (path : string)
| EvGenImages (matrix : string) (locs : list point2) (n_gridpoints : nat)
              (normalize : bool)
| EvPickleDump (path : string) (content : gmap string mat_value).

Record state : Type := {
  matContent : gmap string mat_value;
  trace : list event
}.

Definition chans_path : string := "../data/chans.mat".
Definition data_path : string :=
  "../data/spectral_feat_tensor_full_with_full_labels.mat".
Definition filename : string :=
  "../data/spectral_feat_tensor_full_with_full_labels_images_128_new.pkl".

Definition matrices : list string :=
  ["full_feat"; "pd_feat"; "nc_feat"; "E1_feat"; "E2_feat"; "E3_feat";
   "E4_feat"; "E5_feat"; "E6_feat"]%string.

Definition n_grid : nat := 128.

(** The default values of the keyword arguments of [gen_images]. *)
Definition default_std_mult : npfloat := Finite (1 / 10)%R.
Definition default_n_components : nat := 2.

Section Cells.

Variable griddata : list point2 -> list npfloat -> point2 -> npfloat.
Variable scale : list npfloat -> list npfloat.
Variable np_std : list npfloat -> npfloat.
Variable np_random_normal : npfloat -> nat -> nat -> result (list npfloat).

(** The files: what [loadmat] returns for the electrode file (the table
    of positions under its names) and for the feature file, and whether
    the pickle file can be written. *)
Variable chans_mat : result (gmap string (list point3)).
Variable data_mat : result (gmap string ndarray2).
Variable can_write : string -> bool.

Local Abbreviation gen_images' :=
  (gen_images griddata scale np_std np_random_normal).

(** [for e in locs_3d: locs_2d.append(azim_proj(e))]. *)
Definition project_all (locs_3d : list point3) : list point2 :=
  foldl (fun locs_2d e => locs_2d ++ [azim_proj e]) [] locs_3d.

(** [matContent[matrix]] read as the feature matrix.  The names of the
    list never carry the suffix of a stored image. *)
Definition get_features (d : gmap string mat_value) (matrix : string)
  : result ndarray2 :=
  match d !! matrix with
  | Some (MatArray a) => Ok a
  | Some (MatImages _) => Raise TypeError
  | None => Raise KeyError
  end.

(** The body of [for matrix in matrices]; [np.array(locs_2d)] is the list
    of the projected positions itself. *)
Definition process_matrix (locs_2d : list point2) (st : state)
    (matrix : string) : result state :=
  features ← get_features (matContent st) matrix;
  let d := delete matrix (matContent st) in
  images ← gen_images' locs_2d features n_grid true false false
                       default_std_mult default_n_components false;
  Ok {| matContent := <[(matrix +:+ "_img")%string := MatImages images]> d;
        trace := trace st ++ [EvGenImages matrix locs_2d n_grid true] |}.

(** The cell under [if __name__ == '__main__']; [savemat] is commented
    out there. *)
Definition main_cell : result state :=
  locs ← chans_mat;
  locs_3d ← match locs !! "x"%string with
            | Some l => Ok l
            | None => Raise KeyError
            end;
  let locs_2d := project_all locs_3d in
  d ← data_mat;
  let st := {| matContent := MatArray <$> d;
               trace := [EvLoadmat chans_path; EvLoadmat data_path] |} in
  for_each (process_matrix locs_2d) matrices st.

(** The cell that follows: [pickle.dump(matContent, mat_file, protocol=4)]
    inside [try ... except], which keeps a failure from stopping the
    notebook. *)
Definition pickle_cell (st : state) : state :=
  if can_write filename
  then {| matContent := matContent st;
          trace := trace st ++ [EvPickleDump filename (matContent st)] |}
  else st.

(** The two cells, run from top to bottom. *)
Definition run_notebook : result state :=
  st ← main_cell; Ok (pickle_cell st).

End Cells.

(** The key under which the images of a matrix are stored. *)
Definition img_key (matrix : string) : string := (matrix +:+ "_img")%string.

(** Three electrodes on the axes, and the triangle's feature matrix under
    each of the nine names. *)
Definition example_chans : gmap string (list point3) :=
  {[ "x"%string := [(1, 0, 0); (0, 1, 0); (0, 0, 1)]%R ]}.

Definition example_data : gmap string ndarray2 :=
  list_to_map (map (fun m => (m, tri_features)) matrices).

Lemma matrices_NoDup : NoDup matrices.
Proof. apply (bool_decide_unpack _). vm_compute. reflexivity. Qed.

Lemma img_keys_NoDup : NoDup (img_key <$> matrices).
Proof. apply (bool_decide_unpack _). vm_compute. reflexivity. Qed.

(** No name of the list is the key of a stored image. *)
Lemma matrices_not_img_keys :
  Forall (fun m => Forall (fun m' => m <> img_key m') matrices) matrices.
Proof. apply (bool_decide_unpack _). vm_compute. reflexivity. Qed.

Section Loop.

Variable griddata : list point2 -> list npfloat -> point2 -> npfloat.
Variable scale : list npfloat -> list npfloat.
Variable np_std : list npfloat -> npfloat.
Variable np_random_normal : npfloat -> nat -> nat -> result (list npfloat).

Local Abbreviation run_gen_images locs_2d features :=
  (gen_images griddata scale np_std np_random_normal locs_2d features n_grid
              true false false default_std_mult default_n_components false).
Local Abbreviation process_matrix' :=
  (process_matrix griddata scale np_std np_random_normal).

Lemma project_all_map (locs_3d : list point3) :
  project_all locs_3d = map azim_proj locs_3d.
Proof.
  unfold project_all.
  assert (H : forall acc,
             foldl (fun locs_2d e => locs_2d ++ [azim_proj e]) acc locs_3d
             = acc ++ map azim_proj locs_3d).
  { induction locs_3d as [|e l IH]; intros acc; cbn [foldl map].
    - rewrite app_nil_r. reflexivity.
    - rewrite IH, <- app_assoc. reflexivity. }
  apply (H []).
Qed.

(** The loop over a list of names none of which is the image key of
    another: every matrix is replaced by its images, in the order of the
    list, and nothing else changes. *)
Lemma for_each_process_matrix (locs_2d : list point2) (ms : list string) :
  forall st : state,
    NoDup ms -> NoDup (img_key <$> ms) ->
    (forall m m', m ∈ ms -> m' ∈ ms -> m <> img_key m') ->
    (forall m, m ∈ ms ->
       exists features images,
         matContent st !! m = Some (MatArray features)
         /\ run_gen_images locs_2d features = Ok images) ->
    exists st',
      for_each (process_matrix' locs_2d) ms st = Ok st'
      /\ trace st'
         = trace st ++ map (fun m => EvGenImages m locs_2d n_grid true) ms
      /\ (forall key, key ∉ ms -> key ∉ img_key <$> ms ->
            matContent st' !! key = matContent st !! key)
      /\ (forall m, m ∈ ms -> matContent st' !! m = None)
      /\ (forall m features,
            m ∈ ms -> matContent st !! m = Some (MatArray features) ->
            exists images,
              run_gen_images locs_2d features = Ok images
              /\ matContent st' !! img_key m = Some (MatImages images)).
Proof.
  induction ms as [|m ms IH]; intros st Hnd Hndk Hcross Hgen.
  - exists st. cbn [for_each map]. rewrite app_nil_r.
    split; [reflexivity|]. split; [reflexivity|]. split; [auto|].
    split; [intros m Hin; inversion Hin | intros m f Hin; inversion Hin].
  - apply NoDup_cons in Hnd as [Hm Hnd].
    rewrite fmap_cons in Hndk. apply NoDup_cons in Hndk as [Hmk Hndk].
    destruct (Hgen m) as (features & images & Hlook & Himg);
      [apply elem_of_cons; auto|].
    assert (Hself : m <> img_key m)
      by (apply Hcross; apply elem_of_cons; auto).
    set (st1 := {| matContent := <[img_key m := MatImages images]>
                                   (delete m (matContent st));
                   trace := trace st ++ [EvGenImages m locs_2d n_grid true] |}).
    assert (Hstep : process_matrix' locs_2d st m = Ok st1).
    { unfold process_matrix, get_features. rewrite Hlook.
      cbn [mbind result_bind]. rewrite Himg. reflexivity. }
    assert (Hkeep : forall m', m' ∈ ms ->
               matContent st1 !! m' = matContent st !! m').
    { intros m' Hm'. cbn [matContent st1].
      rewrite lookup_insert_ne, lookup_delete_ne; [reflexivity| |].
      - intros ->. contradiction.
      - intros Heq. apply (Hcross m' m); [right; exact Hm' | left |];
          congruence. }
    destruct (IH st1 Hnd Hndk) as (st' & Hrun & Htrace & Hframe & Hdel & Hstore).
    { intros a b Ha Hb. apply Hcross; right; assumption. }
    { intros m' Hm'. destruct (Hgen m') as (f' & i' & Hl' & Hi');
        [right; exact Hm'|].
      exists f', i'. rewrite Hkeep by exact Hm'. auto. }
    exists st'. split; [cbn [for_each]; rewrite Hstep; exact Hrun|].
    split; [rewrite Htrace; cbn [trace st1 map]; rewrite <- app_assoc;
            reflexivity|].
    assert (Hm_img : img_key m ∉ ms).
    { intros Hin. apply (Hcross (img_key m) m); [right; exact Hin | left |];
        reflexivity. }
    split; [|split].
    + intros key Hk Hkk.
      apply not_elem_of_cons in Hk as [Hk1 Hk2].
      rewrite fmap_cons in Hkk. apply not_elem_of_cons in Hkk as [Hkk1 Hkk2].
      rewrite (Hframe key Hk2 Hkk2). cbn [matContent st1].
      rewrite lookup_insert_ne, lookup_delete_ne by congruence. reflexivity.
    + intros m' Hm'. apply elem_of_cons in Hm' as [->|Hm']; [|auto].
      rewrite (Hframe m Hm).
      * cbn [matContent st1].
        rewrite lookup_insert_ne, lookup_delete_eq by congruence. reflexivity.
      * intros Hin. apply list_elem_of_fmap in Hin as (m' & Heq & Hm').
        apply (Hcross m m'); [left | right|]; auto.
    + intros m' f' Hm' Hl'. apply elem_of_cons in Hm' as [->|Hm'].
      * exists images. rewrite Hl' in Hlook. injection Hlook as ->.
        split; [exact Himg|].
        rewrite (Hframe (img_key m) Hm_img Hmk). cbn [matContent st1].
        apply lookup_insert_eq.
      * apply Hstore; [exact Hm'|]. rewrite Hkeep by exact Hm'. exact Hl'.
Qed.

End Loop.

Section Notebook.

Variable griddata : list point2 -> list npfloat -> point2 -> npfloat.
Variable scale : list npfloat -> list npfloat.
Variable np_std : list npfloat -> npfloat.
Variable np_random_normal : npfloat -> nat -> nat -> result (list npfloat).
Variable chans_mat : result (gmap string (list point3)).
Variable data_mat : result (gmap string ndarray2).
Variable can_write : string -> bool.

Local Abbreviation gen_images' :=
  (gen_images griddata scale np_std np_random_normal).
Local Abbreviation run_notebook' :=
  (run_notebook griddata scale np_std np_random_normal chans_mat data_mat
                can_write).

(** C5. The notebook runs load, transform, save in this order.  When the
    two files load, the electrode table is under ["x"], the nine matrices
    of the fixed list are in the feature file and every call of
    [gen_images] returns, the notebook completes and: [locs_2d] is
    [azim_proj] of every row of [locs_3d], in the same order; the effects
    are the two loads, then one call
    [gen_images(locs_2d, features, 128, normalize=True)] per matrix of
    the list, in the order of the list, then, last, the dump of
    [matContent]; at the end [matContent] holds, under [matrix + '_img'],
    the result of the call made for that matrix. *)
Theorem notebook_load_transform_save
    (locs : gmap string (list point3)) (locs_3d : list point3)
    (d : gmap string ndarray2) :
  chans_mat = Ok locs ->
  locs !! "x"%string = Some locs_3d ->
  data_mat = Ok d ->
  (forall m, m ∈ matrices ->
     exists features images,
       d !! m = Some features
       /\ gen_images' (map azim_proj locs_3d) features 128 true false false
                      default_std_mult default_n_components false
          = Ok images) ->
  exists st,
    run_notebook' = Ok st
    /\ project_all locs_3d = map azim_proj locs_3d
    /\ trace st
       = [EvLoadmat chans_path; EvLoadmat data_path]
         ++ map (fun m => EvGenImages m (map azim_proj locs_3d) 128 true)
                matrices
         ++ (if can_write filename
             then [EvPickleDump filename (matContent st)] else [])
    /\ (forall m features,
          m ∈ matrices -> d !! m = Some features ->
          exists images,
            gen_images' (map azim_proj locs_3d) features 128 true false false
                        default_std_mult default_n_components false
            = Ok images
            /\ matContent st !! (m +:+ "_img")%string = Some (MatImages images))
    /\ (forall m, m ∈ matrices -> matContent st !! m = None).
Proof.
  intros Hchans Hx Hdata Hgen.
  pose proof matrices_not_img_keys as Hcross.
  set (st0 := {| matContent := MatArray <$> d;
                 trace := [EvLoadmat chans_path; EvLoadmat data_path] |}).
  destruct (for_each_process_matrix griddata scale np_std np_random_normal
              (map azim_proj locs_3d) matrices st0
              matrices_NoDup img_keys_NoDup)
    as (st & Hrun & Htrace & _ & Hdel & Hstore).
  { intros m m' Hm Hm'. rewrite Forall_forall in Hcross.
    specialize (Hcross m Hm). rewrite Forall_forall in Hcross.
    apply Hcross. exact Hm'. }
  { intros m Hm. destruct (Hgen m Hm) as (features & images & Hl & Hi).
    exists features, images. split; [|exact Hi].
    cbn [matContent st0]. rewrite lookup_fmap, Hl. reflexivity. }
  assert (Hmain : main_cell griddata scale np_std np_random_normal
                            chans_mat data_mat = Ok st).
  { unfold main_cell. rewrite Hchans. cbn [mbind result_bind].
    rewrite Hx. cbn [mbind result_bind]. rewrite Hdata.
    cbn [mbind result_bind]. rewrite project_all_map. exact Hrun. }
  exists (pickle_cell can_write st).
  split; [unfold run_notebook; rewrite Hmain; reflexivity|].
  split; [apply project_all_map|].
  assert (Hcontent : matContent (pickle_cell can_write st) = matContent st).
  { unfold pickle_cell. destruct (can_write filename); reflexivity. }
  split; [|split].
  - rewrite Hcontent. unfold pickle_cell.
    destruct (can_write filename); cbn [trace]; rewrite Htrace;
      cbn [trace st0].
    + rewrite <- app_assoc. reflexivity.
    + rewrite app_nil_r. reflexivity.
  - intros m features Hm Hl. rewrite Hcontent.
    apply (Hstore m features Hm).
    cbn [matContent st0]. rewrite lookup_fmap, Hl. reflexivity.
  - intros m Hm. rewrite Hcontent. apply Hdel. exact Hm.
Qed.

End Notebook.

(** ** An example run *)

Lemma notebook_load_transform_save_witness :
  exists st,
    run_notebook vertex_griddata standardize zero_std zero_noise
                 (Ok example_chans) (Ok example_data) (fun _ => true) = Ok st
    /\ (forall m, m ∈ matrices -> matContent st !! m = None).
Proof.
  destruct (notebook_load_transform_save
              vertex_griddata standardize zero_std zero_noise
              (Ok example_chans) (Ok example_data) (fun _ => true)
              example_chans [(1, 0, 0); (0, 1, 0); (0, 0, 1)]%R example_data)
    as (st & Hrun & _ & _ & _ & Hdel).
  - reflexivity.
  - reflexivity.
  - reflexivity.
  - intros m Hm. exists tri_features.
    destruct (gen_images_returns vertex_griddata standardize zero_std zero_noise
                (map azim_proj [(1, 0, 0); (0, 1, 0); (0, 0, 1)]%R)
                tri_features 128 true default_std_mult default_n_components 1)
      as (min_x & max_x & min_y & max_y & _ & _ & Ht);
      [discriminate | discriminate | reflexivity |].
    eexists. split; [|exact Ht].
    unfold matrices in Hm.
    repeat (apply elem_of_cons in Hm as [->|Hm]; [reflexivity|]).
    inversion Hm.
  - exists st. split; [exact Hrun | exact Hdel].
Defined.

End ImagePipeline.

(* ===================================================================== *)
(** * Part II.  [EEG_1D_CNN.ipynb]: the data cell                         *)
(* ===================================================================== *)

Module DataCell.
Import Python.

(** [np.unique] sorts its argument and keeps the first entry of every run
    of equal entries. *)
Fixpoint keep_changes (prev : Z) (l : list Z) : list Z :=
  match l with
  | [] => []
  | y :: l' =>
      if decide (y = prev) then keep_changes y l' else y :: keep_changes y l'
  end.

Definition np_unique (l : list Z) : list Z :=
  match merge_sort Z.le l with
  | [] => []
  | x :: s => x :: keep_changes x s
  end.

(** What the cell leaves in the notebook's variables. *)
Record dataset (sample : Type) : Type := {
  features : list sample;
  labels : list Z;
  class_num : nat;
  labels_categorical : list (list Z)
}.
Arguments features {sample} d.
Arguments labels {sample} d.
Arguments class_num {sample} d.
Arguments labels_categorical {sample} d.

Section Cell.

Context {sample : Type}.

(** [np.random.shuffle], which reorders [rand_order], and Keras'
    [np_utils.to_categorical]. *)
Variable shuffle : list nat -> list nat.
Variable to_categorical : list Z -> nat -> result (list (list Z)).

(** The lines of the cell from [rand_order = ...] on, applied to the
    feature rows and the labels read from the file. *)
Definition data_cell (features0 : list sample) (labels0 : list Z)
  : result (dataset sample) :=
  let rand_order := shuffle (np_arange (length features0)) in
  features1 ← np_take features0 rand_order;
  labels1 ← np_take labels0 rand_order;
  let class_num := length (np_unique labels1) in
  labels_categorical ← to_categorical labels1 class_num;
  Ok {| features := features1; labels := labels1; class_num := class_num;
        labels_categorical := labels_categorical |}.

End Cell.

(** A stand-in for [to_categorical], used in the example. *)
Definition one_hot (labels : list Z) (n : nat) : result (list (list Z)) :=
  Ok (map (fun y => map (fun j => if (Z.of_nat j =? y)%Z then 1%Z else 0%Z)
                        (seq 0 n))
          labels).

(** ** [np.unique] counts the distinct values *)

Lemma keep_changes_sorted (x : Z) (s : list Z) :
  StronglySorted Z.le (x :: s) ->
  StronglySorted Z.lt (x :: keep_changes x s)
  /\ (forall y, y ∈ x :: keep_changes x s <-> y ∈ x :: s).
Proof.
  revert x. induction s as [|z s IH]; intros x Hs.
  - cbn. split; [repeat constructor | tauto].
  - apply StronglySorted_inv in Hs as [Hs Hx].
    destruct (IH z Hs) as [IHs IHe].
    apply Forall_cons in Hx as [Hxz Hxs].
    cbn [keep_changes]. destruct (decide (z = x)) as [->|Hne].
    + split; [exact IHs|].
      intros y. rewrite (IHe y). rewrite !elem_of_cons. tauto.
    + split.
      * constructor; [exact IHs|].
        apply Forall_forall. intros y Hy. apply IHe in Hy.
        apply elem_of_cons in Hy as [->|Hy]; [lia|].
        apply StronglySorted_inv in Hs as [_ Hz].
        rewrite Forall_forall in Hz. specialize (Hz y Hy). lia.
      * intros y. rewrite elem_of_cons, (IHe y), !elem_of_cons. tauto.
Qed.

Lemma StronglySorted_lt_NoDup (l : list Z) : StronglySorted Z.lt l -> NoDup l.
Proof.
  induction 1 as [|x l _ IH Hx]; constructor; [|exact IH].
  intros Hin. rewrite Forall_forall in Hx. specialize (Hx x Hin). lia.
Qed.

Lemma np_unique_spec (l : list Z) :
  NoDup (np_unique l) /\ (forall y, y ∈ np_unique l <-> y ∈ l).
Proof.
  unfold np_unique.
  pose proof (StronglySorted_merge_sort Z.le l) as Hs.
  pose proof (merge_sort_Permutation Z.le l) as Hp.
  destruct (merge_sort Z.le l) as [|x s].
  - split; [constructor|]. intros y. rewrite <- Hp. tauto.
  - destruct (keep_changes_sorted x s Hs) as [Hlt He]. split.
    + apply StronglySorted_lt_NoDup. exact Hlt.
    + intros y. rewrite (He y), Hp. tauto.
Qed.

(** [np.size(np.unique(labels))] is the number of distinct labels. *)
Lemma np_unique_size (l : list Z) :
  length (np_unique l) = size (list_to_set l : gset Z).
Proof.
  destruct (np_unique_spec l) as [Hnd He].
  rewrite <- (size_list_to_set (C := gset Z) (np_unique l) Hnd).
  f_equal. apply set_eq. intros y.
  rewrite !elem_of_list_to_set. apply He.
Qed.

(** C9. The features and the labels are indexed by the same shuffled
    [rand_order]: whatever permutation the shuffle produces, the multiset
    of (feature row, label) pairs after the shuffle is the multiset
    before it, and [class_num] is the number of distinct label values
    present. *)
Theorem data_cell_preserves_pairing {sample : Type}
    (shuffle : list nat -> list nat)
    (to_categorical : list Z -> nat -> result (list (list Z)))
    (features0 : list sample) (labels0 : list Z) :
  (forall l, shuffle l ≡ₚ l) ->
  length labels0 = length features0 ->
  exists features1 labels1,
    let rand_order := shuffle (np_arange (length features0)) in
    let class_num := length (np_unique labels1) in
    np_take features0 rand_order = Ok features1
    /\ np_take labels0 rand_order = Ok labels1
    /\ zip features1 labels1 ≡ₚ zip features0 labels0
    /\ class_num = size (list_to_set labels1 : gset Z)
    /\ (list_to_set labels1 : gset Z) = list_to_set labels0
    /\ data_cell shuffle to_categorical features0 labels0
       = (labels_categorical ← to_categorical labels1 class_num;
          Ok {| features := features1; labels := labels1;
                class_num := class_num;
                labels_categorical := labels_categorical |}).
Proof.
  intros Hshuffle Hlen.
  set (rand_order := shuffle (np_arange (length features0))).
  assert (Hperm : rand_order ≡ₚ seq 0 (length features0))
    by apply Hshuffle.
  destruct (np_take_perm features0 rand_order Hperm) as (features1 & Hf & Hpf).
  destruct (np_take_perm labels0 rand_order) as (labels1 & Hl & Hpl);
    [rewrite Hlen; exact Hperm|].
  exists features1, labels1. cbn zeta. fold rand_order.
  split; [exact Hf|]. split; [exact Hl|]. split; [|split; [|split]].
  - pose proof (np_take_zip _ _ _ _ _ Hf Hl) as Hz.
    destruct (np_take_perm (zip features0 labels0) rand_order)
      as (pairs & Hpairs & Hpp).
    { rewrite length_zip, Hlen, Nat.min_id. exact Hperm. }
    rewrite Hz in Hpairs. injection Hpairs as <-. exact Hpp.
  - apply np_unique_size.
  - apply set_eq. intros y. rewrite !elem_of_list_to_set, Hpl. tauto.
  - unfold data_cell. fold rand_order. rewrite Hf, Hl. reflexivity.
Qed.

(** ** An example: the shuffle reverses the order *)

Lemma data_cell_preserves_pairing_witness :
  exists out,
    data_cell (reverse (A := nat)) one_hot [10; 20; 30]%nat [0; 1; 0]%Z = Ok out
    /\ class_num out = 2%nat.
Proof.
  destruct (data_cell_preserves_pairing (reverse (A := nat)) one_hot
              [10; 20; 30]%nat [0; 1; 0]%Z)
    as (features1 & labels1 & Hf & Hl & _ & _ & _ & Hcell).
  - intros l. apply reverse_Permutation.
  - reflexivity.
  - cbn in Hl. injection Hl as <-.
    eexists. split; [rewrite Hcell; reflexivity | reflexivity].
Defined.

End DataCell.

(* ===================================================================== *)
(** * Part II.  [EEG_1D_CNN.ipynb]: the model                             *)
(* ===================================================================== *)

Module Model.

Local Open Scope string_scope.

(** ** Keras objects, as the notebook builds them *)

Inductive layer : Type :=
| Conv1D (filters kernel_size : nat) (padding activation : string)
         (kernel_initializer : option string) (input_shape : option (nat * nat))
         (trainable : bool)
| AveragePooling1D (pool_size strides : nat) (padding : string)
| Flatten
| BatchNormalization (epsilon : R)
| Dense (units : nat) (kernel_initializer activation : option string)
| Dropout (rate : R)
| Activation (activation : string).

Inductive optimizer : Type :=
| SGD (learning_rate momentum decay : R) (nesterov : bool)
| Adam (learning_rate : R)
| RMSprop (learning_rate epsilon : R).

Record compilation : Type := {
  loss : string;
  opt : optimizer;
  metrics : list string
}.

(** A [Sequential] model: the layers added so far and, once [compile] has
    been called, the loss, the optimizer and the metrics. *)
Record model : Type := {
  layers : list layer;
  compiled : option compilation
}.

Definition Sequential : model := {| layers := []; compiled := None |}.

(** [model.add(layer)]. *)
Definition add (m : model) (l : layer) : model :=
  {| layers := layers m ++ [l]; compiled := compiled m |}.

(** [model.compile(loss=..., optimizer=..., metrics=...)]. *)
Definition compile (m : model) (c : compilation) : model :=
  {| layers := layers m; compiled := Some c |}.

(** ** The model parameters of the notebook *)

Definition nb_filters : list nat := [16; 32; 32; 64; 128].
Definition kernel_size : nat := 3.
Definition pool_size : nat := 2.
Definition stride_size : nat := 2.
Definition padding : string := "same".
Definition weight_decay : R := (1 / 1000000)%R.
Definition dense_layer_neuron_num : nat := 128.
Definition epochs : nat := 30.
Definition momentum : R := (8 / 10)%R.

(** ** [create_model]

    [X_shape] is [X.shape] and [class_num] the number of classes, both
    variables of the notebook.  [model.summary()] prints and is left
    out. *)
Definition create_model (X_shape : nat * nat * nat) (class_num : nat)
    (init_mode activation : string) (dropout_rate : R) (optimizer : string)
    (learn_rate : R) : model :=
  let model := Sequential in
  let model :=
    add model (Conv1D (nth 0 nb_filters 0) kernel_size padding activation None
                      (Some (snd (fst X_shape), snd X_shape)) true) in
  let model := add model (AveragePooling1D pool_size stride_size padding) in
  let model :=
    add model (Conv1D (nth 1 nb_filters 0) kernel_size padding activation
                      (Some init_mode) None true) in
  let model := add model (AveragePooling1D pool_size stride_size padding) in
  let model :=
    add model (Conv1D (nth 2 nb_filters 0) kernel_size padding activation
                      (Some init_mode) None true) in
  let model := add model (AveragePooling1D pool_size stride_size padding) in
  let model := add model Flatten in
  let model := add model (BatchNormalization (1 / 1000)%R) in
  let model :=
    add model (Dense dense_layer_neuron_num (Some init_mode) (Some activation)) in
  let model := add model (Dropout dropout_rate) in
  let model := add model (Dense class_num None None) in
  let model := add model (Activation "softmax") in
  if decide (optimizer = "SGD") then
    let opt := SGD (learn_rate / 10 ^ epochs)%R momentum weight_decay true in
    compile model {| loss := "binary_crossentropy"; opt := opt;
                     metrics := ["accuracy"] |}
  else if decide (optimizer = "Adam") then
    let opt := Adam learn_rate in
    compile model {| loss := "categorical_crossentropy"; opt := opt;
                     metrics := ["accuracy"] |}
  else if decide (optimizer = "RMSprop") then
    let opt := RMSprop learn_rate (1 / 10000000)%R in
    compile model {| loss := "binary_crossentropy"; opt := opt;
                     metrics := ["accuracy"] |}
  else model.

(** ** The activations *)

Definition Rsum (l : list R) : R := fold_right Rplus 0%R l.

(** [softmax]: the exponentials of the entries, divided by their sum. *)
Definition softmax (z : list R) : list R :=
  map (fun x => (exp x / Rsum (map exp z))%R) z.

(** The function an [Activation] layer applies to its input vector. *)
Definition activation_function (name : string) : option (list R -> list R) :=
  if decide (name = "softmax") then Some softmax
  else if decide (name = "relu") then Some (map (Rmax 0))
  else if decide (name = "tanh") then Some (map tanh)
  else if decide (name = "sigmoid") then Some (map (fun x => 1 / (1 + exp (- x)))%R)
  else if decide (name = "linear") then Some (fun z => z)
  else None.

(** A probability vector over [n] classes. *)
Definition probability_vector (n : nat) (p : list R) : Prop :=
  length p = n /\ Forall (fun x => (0 <= x <= 1)%R) p /\ Rsum p = 1%R.

Lemma Rsum_exp_pos (z : list R) : z <> [] -> (0 < Rsum (map exp z))%R.
Proof.
  destruct z as [|x z]; [congruence|]. intros _. cbn [map Rsum fold_right].
  assert (Hnn : forall l, (0 <= fold_right Rplus 0 (map exp l))%R).
  { induction l as [|y l IH]; cbn; [lra|]. pose proof (exp_pos y). lra. }
  pose proof (exp_pos x). specialize (Hnn z). lra.
Qed.

Lemma Rsum_exp_ge (z : list R) (x : R) : In x z -> (exp x <= Rsum (map exp z))%R.
Proof.
  induction z as [|y z IH]; [intros []|].
  intros [->|Hin]; cbn [map Rsum fold_right].
  - assert (Hnn : forall l, (0 <= fold_right Rplus 0 (map exp l))%R).
    { induction l as [|w l IHl]; cbn; [lra|]. pose proof (exp_pos w). lra. }
    specialize (Hnn z). lra.
  - specialize (IH Hin). unfold Rsum in IH. pose proof (exp_pos y). lra.
Qed.

Lemma Rsum_map_div (c : R) (l : list R) :
  Rsum (map (fun x => x / c)%R l) = (Rsum l / c)%R.
Proof.
  induction l as [|x l IH]; cbn [map Rsum fold_right]; [lra|].
  unfold Rsum in IH. rewrite IH. lra.
Qed.

Lemma softmax_probability_vector (z : list R) :
  z <> [] -> probability_vector (length z) (softmax z).
Proof.
  intros Hz. pose proof (Rsum_exp_pos z Hz) as Hpos.
  unfold probability_vector, softmax. split; [apply length_map|]. split.
  - apply Forall_map, Forall_forall. intros x Hx. cbn.
    apply list_elem_of_In in Hx.
    pose proof (Rsum_exp_ge z x Hx) as Hle. pose proof (exp_pos x) as Hx0.
    split.
    + apply Rlt_le, Rdiv_lt_0_compat; assumption.
    + apply (Rmult_le_reg_r (Rsum (map exp z))); [exact Hpos|].
      unfold Rdiv. rewrite Rmult_assoc, Rinv_l by lra. lra.
  - rewrite <- (map_map exp (fun e => (e / Rsum (map exp z))%R)).
    rewrite Rsum_map_div. field. lra.
Qed.

Lemma create_model_layers (X_shape : nat * nat * nat) (class_num : nat)
    (init_mode activation : string) (dropout_rate : R) (optimizer : string)
    (learn_rate : R) :
  layers (create_model X_shape class_num init_mode activation dropout_rate
                       optimizer learn_rate)
  = [ Conv1D 16 3 "same" activation None
             (Some (snd (fst X_shape), snd X_shape)) true;
      AveragePooling1D 2 2 "same";
      Conv1D 32 3 "same" activation (Some init_mode) None true;
      AveragePooling1D 2 2 "same";
      Conv1D 32 3 "same" activation (Some init_mode) None true;
      AveragePooling1D 2 2 "same";
      Flatten;
      BatchNormalization (1 / 1000)%R;
      Dense 128 (Some init_mode) (Some activation);
      Dropout dropout_rate;
      Dense class_num None None;
      Activation "softmax" ].
Proof.
  unfold create_model.
  repeat match goal with
         | |- context [decide (optimizer = ?s)] => destruct (decide (optimizer = s))
         end;
    reflexivity.
Qed.

(** C10. [create_model] builds three Conv1D + AveragePooling1D blocks
    (filters 16, 32, 32; kernel size 3; pool size 2; stride 2; 'same'
    padding), then Flatten, BatchNormalization, a Dense layer of 128
    neurons, Dropout and a Dense layer of [class_num] outputs followed by
    the softmax activation, which turns every vector of [class_num]
    values into a probability vector over the classes; the model is
    compiled with categorical_crossentropy for optimizer 'Adam' and with
    binary_crossentropy for 'SGD' and 'RMSprop'. *)
Theorem create_model_architecture (X_shape : nat * nat * nat) (class_num : nat)
    (init_mode activation : string) (dropout_rate : R) (optimizer : string)
    (learn_rate : R) :
  let m := create_model X_shape class_num init_mode activation dropout_rate
                        optimizer learn_rate in
  layers m
  = [ Conv1D 16 3 "same" activation None
             (Some (snd (fst X_shape), snd X_shape)) true;
      AveragePooling1D 2 2 "same";
      Conv1D 32 3 "same" activation (Some init_mode) None true;
      AveragePooling1D 2 2 "same";
      Conv1D 32 3 "same" activation (Some init_mode) None true;
      AveragePooling1D 2 2 "same";
      Flatten;
      BatchNormalization (1 / 1000)%R;
      Dense 128 (Some init_mode) (Some activation);
      Dropout dropout_rate;
      Dense class_num None None;
      Activation "softmax" ]
  /\ (exists f,
        activation_function "softmax" = Some f
        /\ forall z, length z = class_num -> class_num <> 0%nat ->
                     probability_vector class_num (f z))
  /\ (optimizer = "Adam" ->
      loss <$> compiled m = Some "categorical_crossentropy")
  /\ (optimizer = "SGD" \/ optimizer = "RMSprop" ->
      loss <$> compiled m = Some "binary_crossentropy").
Proof.
  intros m. split; [apply create_model_layers|]. split; [|split].
  - exists softmax. split; [reflexivity|].
    intros z Hlen Hn. rewrite <- Hlen. apply softmax_probability_vector.
    intros ->. cbn in Hlen. congruence.
  - intros ->. reflexivity.
  - intros [->| ->]; reflexivity.
Qed.

Lemma create_model_architecture_witness :
  loss <$> compiled (create_model (100, 42, 3)%nat 2 "he_normal" "sigmoid"
                                  (3 / 10)%R "Adam" (1 / 10000)%R)
  = Some "categorical_crossentropy"
  /\ loss <$> compiled (create_model (100, 42, 3)%nat 2 "he_normal" "sigmoid"
                                     (3 / 10)%R "SGD" (1 / 10000)%R)
     = Some "binary_crossentropy".
Proof.
  split.
  - apply (create_model_architecture (100, 42, 3)%nat 2 "he_normal" "sigmoid"
             (3 / 10)%R "Adam" (1 / 10000)%R).
    reflexivity.
  - apply (create_model_architecture (100, 42, 3)%nat 2 "he_normal" "sigmoid"
             (3 / 10)%R "SGD" (1 / 10000)%R).
    left. reflexivity.
Defined.

End Model.

(* ===================================================================== *)
(** * Part II.  [EEG_1D_CNN.ipynb]: the confusion matrix                  *)
(* ===================================================================== *)

Module ConfMat.
Import Python.

(** The arithmetic the metric cell performs on array entries: conversion
    of an integer count, true division and addition. *)
Class Arith (F : Type) : Type := {
  f_zero : F;
  f_add : F -> F -> F;
  f_div : F -> F -> F;
  f_of_int : Z -> F
}.

(** Exact arithmetic. *)
#[export] Instance exact_arith : Arith R := {|
  f_zero := 0%R;
  f_add := Rplus;
  f_div := Rdiv;
  f_of_int := IZR
|}.

(** The arithmetic of the code, IEEE 754 binary64 ([float64]). *)
#[export] Instance binary64_arith : Arith PrimFloat.float := {|
  f_zero := PrimFloat.zero;
  f_add := PrimFloat.add;
  f_div := PrimFloat.div;
  f_of_int := float_of_int
|}.

(** A confusion matrix as [confusion_matrix] returns it: one row of integer
    counts per true class, one column per predicted class. *)
Definition count_matrix : Type := list (list Z).

(** [cm.sum(axis=1, keepdims=True)] on the integer matrix, row by row. *)
Definition int_sum (row : list Z) : Z := fold_left Z.add row 0%Z.

Section Arithmetic.
Context {F : Type} `{Arith F}.

(** Sum of the entries of a row. *)
Definition vec_sum (row : list F) : F := fold_left f_add row f_zero.

(** [cm = cm/cm.sum(axis=1, keepdims=True)]: every count is divided by
    the sum of its row. *)
Definition normalize_rows (cm : count_matrix) : list (list F) :=
  map (fun row => map (fun x => f_div (f_of_int x) (f_of_int (int_sum row))) row)
      cm.

(** The loop body [cm_list.append(cm)] over the folds. *)
Definition cm_list (cms : list count_matrix) : list (list (list F)) :=
  map normalize_rows cms.

Definition mat_add (a b : list (list F)) : list (list F) :=
  zip_with (zip_with f_add) a b.

(** [np.mean(ms, axis=0)]: the matrices are added up in order and the
    sum is divided by their number. *)
Definition np_sum_axis0 (ms : list (list (list F))) : list (list F) :=
  match ms with
  | [] => []
  | m :: rest => fold_left mat_add rest m
  end.

Definition np_mean_axis0 (ms : list (list (list F))) : list (list F) :=
  map (map (fun x => f_div x (f_of_int (Z.of_nat (length ms)))))
      (np_sum_axis0 ms).

(** [conf_mat = np.mean(cm_list, axis=0)]. *)
Definition conf_mat (cms : list count_matrix) : list (list F) :=
  np_mean_axis0 (cm_list cms).
End Arithmetic.

(** No row sum is zero. *)
Definition rows_nonzero (cm : count_matrix) : Prop :=
  Forall (fun row => int_sum row <> 0%Z) cm.

(** The folds used to show the effect of rounding: ten test samples of
    each class in each of the five folds. *)
Definition rounding_folds : list count_matrix :=
  [ [[6; 4]; [3; 7]]; [[6; 4]; [3; 7]]; [[6; 4]; [3; 7]]; [[6; 4]; [3; 7]];
    [[7; 3]; [3; 7]] ]%Z.

(** ** Rows of two counts in binary64 *)

(** The sum of the row [[a; b]] after its division by [a + b], as
    [normalize_rows] and [vec_sum] compute it in binary64: the counts
    are below 2^63. *)
Definition row_sum64 (a b : Uint63.int) : PrimFloat.float :=
  let s := PrimFloat.of_uint63 (Uint63.add a b) in
  PrimFloat.add
    (PrimFloat.add PrimFloat.zero (PrimFloat.div (PrimFloat.of_uint63 a) s))
    (PrimFloat.div (PrimFloat.of_uint63 b) s).

(** The rows [[a; b]], [[a + 1; b - 1]], ..., [fuel] of them. *)
Fixpoint rows_sum_to_one64 (fuel : nat) (a b : Uint63.int) : bool :=
  match fuel with
  | 0%nat => true
  | S fuel' =>
      PrimFloat.Leibniz.eqb (row_sum64 a b) PrimFloat.one
      && rows_sum_to_one64 fuel' (Uint63.add a (Uint63.of_Z 1))
                           (Uint63.sub b (Uint63.of_Z 1))
  end.

(** All the rows of two counts whose sum is [s], [s - 1], ..., 1, for
    [s = n]. *)
Fixpoint sums_to_one64 (n : nat) (s : Uint63.int) : bool :=
  match n with
  | 0%nat => true
  | S n' =>
      rows_sum_to_one64 (S n) (Uint63.of_Z 0) s
      && sums_to_one64 n' (Uint63.sub s (Uint63.of_Z 1))
  end.

(** The largest row sum the binary64 statement covers. *)
Definition max_row_sum : Z := 4096.

(** A confusion matrix with two predicted classes, no negative count and
    row sums from 1 to [max_row_sum]. *)
Definition binary_counts (cm : count_matrix) : Prop :=
  Forall (fun row => exists a b : Z,
              row = [a; b] /\ (0 <= a)%Z /\ (0 <= b)%Z
              /\ (0 < a + b <= max_row_sum)%Z)
         cm.

Section Exact.
Local Open Scope R_scope.

Lemma fold_left_Rplus_acc (l : list R) (a : R) :
  fold_left Rplus l a = a + fold_left Rplus l 0.
Proof.
  revert a. induction l as [|x l IH]; intros a; simpl.
  - lra.
  - rewrite (IH (a + x)), (IH (0 + x)). lra.
Qed.

Lemma vec_sum_cons (x : R) (l : list R) : vec_sum (x :: l) = x + vec_sum l.
Proof.
  unfold vec_sum. simpl. rewrite fold_left_Rplus_acc. lra.
Qed.

Lemma int_sum_cons (x : Z) (l : list Z) : int_sum (x :: l) = (x + int_sum l)%Z.
Proof.
  unfold int_sum. cbn [fold_left].
  assert (Hacc : forall l a, fold_left Z.add l a = (a + fold_left Z.add l 0)%Z).
  { clear. induction l as [|y l IH]; intros a; cbn [fold_left]; [lia|].
    rewrite (IH (a + y)%Z), (IH (0 + y)%Z). lia. }
  rewrite Hacc. lia.
Qed.

Lemma vec_sum_map_div (s : R) (row : list Z) :
  vec_sum (map (fun x => IZR x / s) row) = IZR (int_sum row) / s.
Proof.
  induction row as [|x row IH]; simpl.
  - unfold vec_sum, int_sum. simpl. lra.
  - rewrite vec_sum_cons, IH, int_sum_cons, plus_IZR. lra.
Qed.

Lemma normalized_row_sum (row : list Z) :
  int_sum row <> 0%Z ->
  vec_sum (map (fun x => f_div (f_of_int x) (f_of_int (int_sum row))) row) = 1.
Proof.
  intros Hs. simpl. rewrite vec_sum_map_div.
  apply Rinv_r. apply not_0_IZR. exact Hs.
Qed.

Lemma vec_sum_zip (r1 r2 : list R) :
  length r1 = length r2 ->
  vec_sum (zip_with Rplus r1 r2) = vec_sum r1 + vec_sum r2.
Proof.
  revert r2. induction r1 as [|x r1 IH]; intros [|y r2] Hlen;
    simpl in Hlen; try discriminate.
  - unfold vec_sum. simpl. lra.
  - simpl. rewrite !vec_sum_cons, IH by lia. lra.
Qed.

Lemma vec_sum_map_scale (k : R) (r : list R) :
  vec_sum (map (fun x => x / k) r) = vec_sum r / k.
Proof.
  induction r as [|x r IH]; simpl.
  - unfold vec_sum. simpl. lra.
  - rewrite !vec_sum_cons, IH. lra.
Qed.

(** Row sums of a sum of two matrices of one shape. *)
Lemma row_sums_mat_add (a b : list (list R)) :
  map length a = map length b ->
  map vec_sum (mat_add a b) = zip_with Rplus (map vec_sum a) (map vec_sum b).
Proof.
  revert b. induction a as [|r a IH]; intros [|r' b] Hsh;
    simpl in Hsh; try discriminate; [reflexivity|].
  injection Hsh as Hr Hsh. simpl.
  rewrite vec_sum_zip by exact Hr. f_equal. apply IH. exact Hsh.
Qed.

Lemma shape_mat_add (a b : list (list R)) :
  map length a = map length b -> map length (mat_add a b) = map length a.
Proof.
  revert b. induction a as [|r a IH]; intros [|r' b] Hsh;
    simpl in Hsh; try discriminate; [reflexivity|].
  injection Hsh as Hr Hsh. simpl. f_equal.
  - rewrite length_zip_with. lia.
  - apply IH. exact Hsh.
Qed.

Lemma zip_with_replicate (c d : R) (n : nat) :
  zip_with Rplus (replicate n c) (replicate n d) = replicate n (c + d).
Proof. induction n as [|n IH]; simpl; [reflexivity | now rewrite IH]. Qed.

(** Adding up matrices of one shape whose rows all sum to one. *)
Lemma row_sums_fold (sh : list nat) (rest : list (list (list R)))
      (m : list (list R)) (c : R) :
  map length m = sh ->
  map vec_sum m = replicate (length sh) c ->
  Forall (fun m' => map length m' = sh
                    /\ map vec_sum m' = replicate (length sh) 1) rest ->
  map vec_sum (fold_left mat_add rest m)
  = replicate (length sh) (c + INR (length rest)).
Proof.
  revert m c. induction rest as [|m' rest IH]; intros m c Hsh Hm Hrest.
  - simpl. rewrite Hm. f_equal. lra.
  - inversion Hrest as [|? ? [Hsh' Hm'] Hrest']; subst.
    cbn [fold_left]. rewrite (IH (mat_add m m') (c + 1)).
    + f_equal. cbn [length]. rewrite S_INR. lra.
    + rewrite shape_mat_add; congruence.
    + rewrite row_sums_mat_add by congruence.
      rewrite Hm, Hm'. apply zip_with_replicate.
    + exact Hrest'.
Qed.

Lemma replicate_all_one (l : list R) (n : nat) :
  l = replicate n 1 -> Forall (fun x => x = 1) l.
Proof.
  intros ->. induction n as [|n IH]; simpl; constructor; auto.
Qed.

End Exact.

Lemma of_Z_add (a b : Z) :
  Uint63.add (Uint63.of_Z a) (Uint63.of_Z b) = Uint63.of_Z (a + b).
Proof.
  apply Uint63.to_Z_inj.
  rewrite Uint63.add_spec, !Uint63.of_Z_spec. symmetry. apply Zplus_mod.
Qed.

Lemma of_Z_sub (a b : Z) :
  Uint63.sub (Uint63.of_Z a) (Uint63.of_Z b) = Uint63.of_Z (a - b).
Proof.
  apply Uint63.to_Z_inj.
  rewrite Uint63.sub_spec, !Uint63.of_Z_spec. symmetry. apply Zminus_mod.
Qed.

Lemma rows_sum_to_one64_spec (fuel : nat) (a b : Z) :
  rows_sum_to_one64 fuel (Uint63.of_Z a) (Uint63.of_Z b) = true ->
  forall k : Z, (0 <= k < Z.of_nat fuel)%Z ->
    row_sum64 (Uint63.of_Z (a + k)) (Uint63.of_Z (b - k)) = PrimFloat.one.
Proof.
  revert a b. induction fuel as [|fuel IH]; intros a b Hall k Hk; [lia|].
  cbn [rows_sum_to_one64] in Hall.
  apply andb_true_iff in Hall as [Hrow Hrest].
  rewrite of_Z_add, of_Z_sub in Hrest.
  destruct (Z.eq_dec k 0%Z) as [->|Hne].
  - rewrite Z.add_0_r, Z.sub_0_r.
    apply FloatAxioms.Leibniz.eqb_spec. exact Hrow.
  - specialize (IH _ _ Hrest (k - 1)%Z).
    replace (a + 1 + (k - 1))%Z with (a + k)%Z in IH by lia.
    replace (b - 1 - (k - 1))%Z with (b - k)%Z in IH by lia.
    apply IH. lia.
Qed.

Lemma sums_to_one64_spec (n : nat) :
  sums_to_one64 n (Uint63.of_Z (Z.of_nat n)) = true ->
  forall a b : Z, (0 <= a)%Z -> (0 <= b)%Z -> (0 < a + b <= Z.of_nat n)%Z ->
    row_sum64 (Uint63.of_Z a) (Uint63.of_Z b) = PrimFloat.one.
Proof.
  induction n as [|n IH]; intros Hall a b Ha Hb Hs; [lia|].
  cbn [sums_to_one64] in Hall.
  apply andb_true_iff in Hall as [Hrows Hrest].
  rewrite of_Z_sub in Hrest.
  replace (Z.of_nat (S n) - 1)%Z with (Z.of_nat n) in Hrest by lia.
  destruct (Z.eq_dec (a + b)%Z (Z.of_nat (S n))) as [Heq|Hne].
  - pose proof (rows_sum_to_one64_spec _ 0%Z (Z.of_nat (S n)) Hrows a) as H.
    replace (0 + a)%Z with a in H by lia.
    replace (Z.of_nat (S n) - a)%Z with b in H by lia.
    apply H. lia.
  - apply IH; [exact Hrest | assumption | assumption | lia].
Qed.

Lemma sums_to_one64_max :
  sums_to_one64 (Z.to_nat max_row_sum) (Uint63.of_Z max_row_sum) = true.
Proof. vm_compute. reflexivity. Qed.

(** The row [[a; b]] of a confusion matrix, divided by its sum and
    summed in binary64. *)
Lemma normalized_row_sum64 (a b : Z) :
  (0 <= a)%Z -> (0 <= b)%Z ->
  vec_sum (map (fun x => f_div (f_of_int x) (f_of_int (int_sum [a; b])))
               [a; b])
  = row_sum64 (Uint63.of_Z a) (Uint63.of_Z b).
Proof.
  intros Ha Hb.
  unfold vec_sum, int_sum, row_sum64.
  cbn [map fold_left f_add f_div f_of_int f_zero binary64_arith].
  unfold float_of_int.
  destruct (Z.ltb_spec a 0%Z); [lia|].
  destruct (Z.ltb_spec b 0%Z); [lia|].
  destruct (Z.ltb_spec (0 + a + b) 0%Z); [lia|].
  rewrite of_Z_add. replace (0 + a + b)%Z with (a + b)%Z by lia.
  reflexivity.
Qed.

Lemma binary_counts_rows_sum_to_one (cm : count_matrix) :
  binary_counts cm ->
  Forall (fun row : list PrimFloat.float => vec_sum row = PrimFloat.one)
         (normalize_rows cm).
Proof.
  intros Hcm. unfold normalize_rows. apply Forall_map.
  eapply Forall_impl; [exact Hcm|].
  intros row (a & b & -> & Ha & Hb & Hs). cbv beta.
  rewrite normalized_row_sum64 by assumption.
  pose proof (sums_to_one64_spec (Z.to_nat max_row_sum)) as Hspec.
  rewrite Z2Nat.id in Hspec by (unfold max_row_sum; lia).
  apply Hspec; [apply sums_to_one64_max | assumption ..].
Qed.




End ConfMat.

(* ===================================================================== *)
(** * Part II.  [EEG_1D_CNN.ipynb]: the splitter of the cross-validation  *)
(* ===================================================================== *)

Module StratifiedKFold.
Import Python.

(** ** [sklearn.model_selection.StratifiedKFold]

    The splitter of the loop, [StratifiedKFold(n_splits=5,
    random_state=100, shuffle=True)], is code of scikit-learn, not of the
    notebook.  The definitions below follow the library's
    [StratifiedKFold._make_test_folds], [_iter_test_masks] and
    [BaseCrossValidator.split] (scikit-learn 0.22 and later) statement by
    statement; the statements are quoted with the definitions.  The
    random generator and [np.empty] are parameters: [rng_shuffle k a] is
    the array [a] after the call of [rng.shuffle] for class [k], and
    [np_empty n] is the array [np.empty(n, dtype='i')], whose entries
    are not initialised. *)

(** [np.unique(y, return_index=True, return_inverse=True)] followed by
    [np.unique(y_idx, return_inverse=True)]: the classes in the order of
    their first appearance in [y]. *)
Fixpoint classes (y : list Z) : list Z :=
  match y with
  | [] => []
  | v :: y' => v :: filter (fun w => w <> v) (classes y')
  end.

(** The number of the class [v]: its position among the classes. *)
Fixpoint index_of (v : Z) (l : list Z) : nat :=
  match l with
  | [] => 0
  | w :: l' => if decide (w = v) then 0 else S (index_of v l')
  end.

(** [y_encoded = class_perm[y_inv]]: every label replaced by the number
    of its class. *)
Definition encode (y : list Z) : list nat :=
  map (fun v => index_of v (classes y)) y.

(** How often [v] occurs in [l]. *)
Definition count_of {A : Type} `{EqDecision A} (v : A) (l : list A) : nat :=
  length (filter (fun x => x = v) l).

(** [np.bincount(a)[k]]: how often [k] occurs in [a]. *)
Definition bincount (k : nat) (a : list nat) : nat := count_of k a.

(** [a[i::step]]: the entries at the positions [i], [i + step], ... *)
Definition stride {A : Type} (i step : nat) (a : list A) : list A :=
  omap (fun p => if (i <=? p) && ((p - i) mod step =? 0) then a !! p else None)
       (seq 0 (length a)).

(** [allocation = np.asarray([np.bincount(y_order[i::self.n_splits],
    minlength=n_classes) for i in range(self.n_splits)])]: the number of
    samples of class [k] in the test set of fold [i]. *)
Definition allocation (n_splits n_classes : nat) (y_order : list nat)
  : list (list nat) :=
  map (fun i => map (fun k => bincount k (stride i n_splits y_order))
                    (seq 0 n_classes))
      (seq 0 n_splits).

(** [folds_for_class = np.arange(self.n_splits).repeat(allocation[:, k])]. *)
Definition folds_for_class (n_splits : nat) (alloc : list (list nat)) (k : nat)
  : list nat :=
  flat_map (fun i => replicate (nth k (nth i alloc []) 0) i) (seq 0 n_splits).

(** [test_folds[y_encoded == k] = folds_for_class], entry by entry. *)
Fixpoint fill_class (y_encoded : list nat) (k : nat) (vals a : list nat)
  : list nat :=
  match y_encoded, a with
  | e :: enc', x :: a' =>
      if decide (e = k) then
        match vals with
        | v :: vals' => v :: fill_class enc' k vals' a'
        | [] => x :: fill_class enc' k [] a'
        end
      else x :: fill_class enc' k vals a'
  | _, _ => a
  end.

(** The assignment needs as many values as the mask selects entries;
    NumPy raises a [ValueError] otherwise. *)
Definition assign_class (y_encoded : list nat) (k : nat) (vals a : list nat)
  : result (list nat) :=
  if (length vals =? bincount k y_encoded)%nat
  then Ok (fill_class y_encoded k vals a)
  else Raise ValueError.

(** [a[mask]]: the entries of [a] where the mask holds. *)
Fixpoint select {A : Type} (mask : list bool) (a : list A) : list A :=
  match mask, a with
  | b :: mask', x :: a' => if b then x :: select mask' a' else select mask' a'
  | _, _ => []
  end.

Section Split.

Variable n_splits : nat.
Variable rng_shuffle : nat -> list nat -> list nat.
Variable np_empty : nat -> list nat.

(** [_make_test_folds(X, y)]: the number of the test fold of every
    sample.  [if np.all(self.n_splits > y_counts): raise ValueError(...)];
    [y_order = np.sort(y_encoded)];
    [test_folds = np.empty(len(y), dtype='i')]; then
    [for k in range(n_classes)]: [folds_for_class] is computed,
    [rng.shuffle(folds_for_class)] (as [self.shuffle] holds) and
    [test_folds[y_encoded == k] = folds_for_class]. *)
Definition make_test_folds (y : list Z) : result (list nat) :=
  let y_encoded := encode y in
  let n_classes := length (classes y) in
  let y_counts := map (fun k => bincount k y_encoded) (seq 0 n_classes) in
  if forallb (fun c => c <? n_splits)%nat y_counts then Raise ValueError
  else
    let y_order := merge_sort le y_encoded in
    let alloc := allocation n_splits n_classes y_order in
    for_each (fun test_folds k =>
                let folds := rng_shuffle k (folds_for_class n_splits alloc k) in
                assign_class y_encoded k folds test_folds)
             (seq 0 n_classes) (np_empty (length y)).

(** [split(X, y)]: the pairs (train, test) the generator yields, as a
    list.  [indexable(X, y)] raises when the lengths differ, and
    [n_splits] must not be greater than the number of samples; then
    [_iter_test_masks] yields [test_folds == i] for
    [i in range(self.n_splits)], and [split] yields
    [indices[np.logical_not(test_index)]] and [indices[test_index]] for
    [indices = np.arange(_num_samples(X))]. *)
Definition split {A : Type} (X : list A) (y : list Z)
  : result (list (list nat * list nat)) :=
  let n_samples := length X in
  if negb (n_samples =? length y)%nat then Raise ValueError
  else if (n_samples <? n_splits)%nat then Raise ValueError
  else
    test_folds ← make_test_folds y;
    let indices := np_arange n_samples in
    Ok (map (fun i =>
               let test_index := map (fun t => t =? i)%nat test_folds in
               (select (map negb test_index) indices,
                select test_index indices))
            (seq 0 n_splits)).

End Split.

(** ** The classes and their numbers *)

Lemma classes_elem (y : list Z) (v : Z) : v ∈ classes y <-> v ∈ y.
Proof.
  induction y as [|w y IH]; cbn [classes]; [reflexivity|].
  rewrite !elem_of_cons, list_elem_of_filter, IH.
  destruct (decide (v = w)) as [->|Hne]; [tauto|]. tauto.
Qed.

Lemma classes_NoDup (y : list Z) : NoDup (classes y).
Proof.
  induction y as [|w y IH]; cbn [classes]; constructor.
  - rewrite list_elem_of_filter. tauto.
  - apply NoDup_filter. exact IH.
Qed.

Lemma index_of_lookup (v : Z) (l : list Z) :
  v ∈ l -> l !! index_of v l = Some v.
Proof.
  induction l as [|w l IH]; intros Hin; [inversion Hin|].
  cbn [index_of]. destruct (decide (w = v)) as [->|Hne]; [reflexivity|].
  apply elem_of_cons in Hin as [->|Hin]; [congruence|]. exact (IH Hin).
Qed.

Lemma index_of_lt (v : Z) (l : list Z) :
  v ∈ l -> (index_of v l < length l)%nat.
Proof.
  intros Hin. eapply lookup_lt_Some. apply index_of_lookup. exact Hin.
Qed.

Lemma index_of_eq (v w : Z) (l : list Z) :
  v ∈ l -> w ∈ l -> index_of v l = index_of w l -> v = w.
Proof.
  intros Hv Hw Heq.
  pose proof (index_of_lookup v l Hv) as H1.
  pose proof (index_of_lookup w l Hw) as H2.
  rewrite Heq in H1. congruence.
Qed.

Lemma encode_length (y : list Z) : length (encode y) = length y.
Proof. unfold encode. apply length_map. Qed.

Lemma encode_lt (y : list Z) :
  Forall (fun e => (e < length (classes y))%nat) (encode y).
Proof.
  unfold encode. apply Forall_map, Forall_forall. intros v Hv. cbn.
  apply index_of_lt, classes_elem. exact Hv.
Qed.

(** A sample has the number [index_of v] exactly when its label is [v]. *)
Lemma encode_lookup (y : list Z) (v : Z) (j : nat) :
  v ∈ y ->
  (encode y !! j = Some (index_of v (classes y)) <-> y !! j = Some v).
Proof.
  intros Hv. unfold encode. rewrite lookup_map.
  destruct (y !! j) as [w|] eqn:Hw; cbn; [|split; discriminate].
  split.
  - intros Heq. injection Heq as Heq. f_equal.
    apply (index_of_eq w v (classes y)); [| |exact Heq];
      apply classes_elem; [|exact Hv].
    apply list_elem_of_lookup. eauto.
  - intros Heq. injection Heq as ->. reflexivity.
Qed.

(** ** Counting in filtered lists *)

Lemma filter_length_ext {A : Type} (P Q : A -> Prop)
    `{!forall x, Decision (P x)} `{!forall x, Decision (Q x)} (l : list A) :
  Forall (fun x => P x <-> Q x) l -> length (filter P l) = length (filter Q l).
Proof.
  induction 1 as [|x l Hx _ IH]; [reflexivity|].
  rewrite !filter_cons.
  destruct (decide (P x)), (decide (Q x)); cbn; try lia; tauto.
Qed.

Lemma filter_length_none {A : Type} (P : A -> Prop)
    `{!forall x, Decision (P x)} (l : list A) :
  Forall (fun x => ~ P x) l -> length (filter P l) = 0%nat.
Proof.
  induction 1 as [|x l Hx _ IH]; [reflexivity|].
  rewrite filter_cons. destruct (decide (P x)); [tauto | exact IH].
Qed.

Lemma count_of_app {A : Type} `{EqDecision A} (v : A) (l k : list A) :
  count_of v (l ++ k) = (count_of v l + count_of v k)%nat.
Proof. unfold count_of. rewrite filter_app, length_app. reflexivity. Qed.

Lemma count_of_cons {A : Type} `{EqDecision A} (v x : A) (l : list A) :
  count_of v (x :: l)
  = ((if decide (x = v) then 1 else 0) + count_of v l)%nat.
Proof.
  unfold count_of. rewrite filter_cons. destruct (decide (x = v)); reflexivity.
Qed.

Lemma count_of_replicate {A : Type} `{EqDecision A} (v x : A) (n : nat) :
  count_of v (replicate n x) = if decide (x = v) then n else 0%nat.
Proof.
  induction n as [|n IH]; cbn [replicate].
  - destruct (decide (x = v)); reflexivity.
  - rewrite count_of_cons, IH. destruct (decide (x = v)); reflexivity.
Qed.

Lemma count_of_Permutation {A : Type} `{EqDecision A} (v : A) (l k : list A) :
  l ≡ₚ k -> count_of v l = count_of v k.
Proof. intros Hp. unfold count_of. rewrite Hp. reflexivity. Qed.

Lemma count_of_le {A : Type} `{EqDecision A} (v : A) (l : list A) :
  (count_of v l <= length l)%nat.
Proof. apply length_filter. Qed.

Lemma count_of_pos {A : Type} `{EqDecision A} (v : A) (l : list A) :
  (0 < count_of v l)%nat -> v ∈ l.
Proof.
  unfold count_of. intros Hpos.
  destruct (filter (fun x => x = v) l) as [|x r] eqn:Hf; [cbn in Hpos; lia|].
  assert (Hx : x ∈ filter (fun x => x = v) l) by (rewrite Hf; left).
  apply list_elem_of_filter in Hx as [-> Hx]. exact Hx.
Qed.

Lemma count_of_notin {A : Type} `{EqDecision A} (v : A) (l : list A) :
  v ∉ l -> count_of v l = 0%nat.
Proof.
  intros Hv. destruct (count_of v l) as [|c] eqn:Hc; [reflexivity|].
  exfalso. apply Hv, count_of_pos. lia.
Qed.

(** The class numbers keep the counts of the labels. *)
Lemma count_of_map_index (Y ys : list Z) (v : Z) :
  v ∈ Y -> Forall (fun w => w ∈ Y) ys ->
  count_of (index_of v Y) (map (fun w => index_of w Y) ys) = count_of v ys.
Proof.
  intros Hv. induction 1 as [|w ys Hw _ IH]; [reflexivity|].
  cbn [map]. rewrite !count_of_cons, IH.
  destruct (decide (index_of w Y = index_of v Y)) as [Heq|Hne],
           (decide (w = v)) as [->|Hwv]; try reflexivity.
  - exfalso. apply Hwv. exact (index_of_eq w v Y Hw Hv Heq).
  - congruence.
Qed.

Lemma bincount_encode (y : list Z) (v : Z) :
  v ∈ y -> bincount (index_of v (classes y)) (encode y) = count_of v y.
Proof.
  intros Hv. unfold encode.
  apply (count_of_map_index (classes y) y v).
  - apply classes_elem. exact Hv.
  - apply Forall_forall. intros w Hw. apply classes_elem. exact Hw.
Qed.

(** ** Selection by a mask *)

Lemma select_elem {A : Type} (mask : list bool) (a : list A) (x : A) :
  x ∈ select mask a <-> exists j, mask !! j = Some true /\ a !! j = Some x.
Proof.
  revert a. induction mask as [|b mask IH]; intros [|y a]; cbn [select].
  - split; [inversion 1 | intros (j & Hj & _); discriminate].
  - split; [inversion 1 | intros (j & Hj & _); discriminate].
  - split; [inversion 1 | intros (j & _ & Hj); discriminate].
  - destruct b.
    + rewrite elem_of_cons, IH. split.
      * intros [->|(j & Hm & Ha)]; [exists 0%nat; auto | exists (S j); auto].
      * intros ([|j] & Hm & Ha); cbn in *; [left; congruence | right; eauto].
    + rewrite IH. split.
      * intros (j & Hm & Ha). exists (S j). auto.
      * intros ([|j] & Hm & Ha); cbn in *; [discriminate | eauto].
Qed.

Lemma select_sublist {A : Type} (mask : list bool) (a : list A) :
  select mask a `sublist_of` a.
Proof.
  revert a. induction mask as [|b mask IH]; intros [|y a]; cbn [select];
    try apply sublist_nil_l.
  destruct b; [apply sublist_skip | apply sublist_cons]; apply IH.
Qed.

(** Indexing the whole range with a mask: the indices where the mask
    holds, and the rows there. *)
Lemma select_seq_elem (mask : list bool) (j : nat) :
  j ∈ select mask (seq 0 (length mask)) <-> mask !! j = Some true.
Proof.
  rewrite select_elem. split.
  - intros (p & Hm & Hp). apply lookup_seq in Hp as [-> _]. exact Hm.
  - intros Hm. exists j. split; [exact Hm|].
    apply lookup_seq. split; [reflexivity|]. eapply lookup_lt_Some. exact Hm.
Qed.

Lemma np_take_select {A : Type} (mask : list bool) (a : list A) (b : nat) :
  length a = (b + length mask)%nat ->
  np_take a (select mask (seq b (length mask))) = Ok (select mask (drop b a)).
Proof.
  revert b. induction mask as [|m mask IH]; intros b Hlen; cbn [length seq select].
  - reflexivity.
  - cbn [length] in Hlen.
    destruct (lookup_lt_is_Some_2 a b) as [x Hx]; [lia|].
    rewrite (drop_S a x b Hx). cbn [select].
    destruct m.
    + cbn [np_take]. rewrite Hx, IH by lia. reflexivity.
    + apply IH. lia.
Qed.

(** The samples of class [v] a fold tests are the fold's entries among
    the fold numbers of the class. *)
Lemma select_count (g : Z -> nat) (ys : list Z) (tf : list nat) (v : Z) (i : nat) :
  Forall (fun w => g w = g v -> w = v) ys ->
  count_of i (select (map (fun w => g w =? g v)%nat ys) tf)
  = count_of v (select (map (fun t => t =? i)%nat tf) ys).
Proof.
  intros Hinj. revert tf. induction Hinj as [|w ys Hw _ IH]; intros [|t tf];
    cbn [map select]; try reflexivity.
  specialize (IH tf).
  destruct (Nat.eqb_spec (g w) (g v)) as [Hg|Hg],
           (Nat.eqb_spec t i) as [Ht|Ht];
    rewrite ?count_of_cons, IH.
  - rewrite !decide_True by auto. reflexivity.
  - rewrite decide_False by exact Ht. reflexivity.
  - rewrite decide_False by congruence. reflexivity.
  - reflexivity.
Qed.

(** ** The assignment of a class *)

Lemma fill_class_length (enc : list nat) (k : nat) (vals a : list nat) :
  length (fill_class enc k vals a) = length a.
Proof.
  revert vals a. induction enc as [|e enc IH]; intros vals [|x a];
    cbn [fill_class]; try reflexivity.
  destruct (decide (e = k)); [destruct vals|]; cbn [length]; rewrite IH;
    reflexivity.
Qed.

Lemma fill_class_select_eq (enc : list nat) (k : nat) (vals a : list nat) :
  length a = length enc -> length vals = bincount k enc ->
  select (map (fun e => e =? k)%nat enc) (fill_class enc k vals a) = vals.
Proof.
  revert vals a. induction enc as [|e enc IH]; intros vals [|x a] Ha Hv;
    cbn [length] in Ha; try discriminate.
  - cbn in Hv. destruct vals; [reflexivity | discriminate].
  - unfold bincount in Hv, IH. rewrite count_of_cons in Hv.
    cbn [fill_class map].
    destruct (decide (e = k)) as [->|Hne].
    + rewrite Nat.eqb_refl. destruct vals as [|v vals]; cbn [length] in Hv; [lia|].
      cbn [select]. f_equal. apply IH; lia.
    + destruct (Nat.eqb_spec e k); [contradiction|]. cbn [select].
      apply IH; [lia | exact Hv].
Qed.

Lemma fill_class_select_ne (enc : list nat) (k k' : nat) (vals a : list nat) :
  k' <> k ->
  select (map (fun e => e =? k')%nat enc) (fill_class enc k vals a)
  = select (map (fun e => e =? k')%nat enc) a.
Proof.
  intros Hk. revert vals a. induction enc as [|e enc IH]; intros vals [|x a];
    cbn [fill_class map select]; try reflexivity.
  destruct (decide (e = k)) as [->|Hne].
  - destruct (Nat.eqb_spec k k'); [congruence|].
    destruct vals; cbn [select]; apply IH.
  - cbn [select]. rewrite IH. reflexivity.
Qed.

(** The loop over the classes: every class has the fold numbers it was
    given, whatever the array held before. *)
Lemma assign_classes (enc : list nat) (sh : nat -> list nat) (ks : list nat) :
  forall a0 : list nat,
    NoDup ks -> length a0 = length enc ->
    (forall k, k ∈ ks -> length (sh k) = bincount k enc) ->
    exists tf,
      for_each (fun test_folds k => assign_class enc k (sh k) test_folds) ks a0
      = Ok tf
      /\ length tf = length enc
      /\ (forall k, k ∈ ks ->
            select (map (fun e => e =? k)%nat enc) tf = sh k)
      /\ (forall k, k ∉ ks ->
            select (map (fun e => e =? k)%nat enc) tf
            = select (map (fun e => e =? k)%nat enc) a0).
Proof.
  induction ks as [|k ks IH]; intros a0 Hnd Hlen Hsh.
  - exists a0. cbn [for_each]. repeat split; auto. intros k Hk. inversion Hk.
  - apply NoDup_cons in Hnd as [Hk Hnd].
    assert (Hshk : length (sh k) = bincount k enc) by (apply Hsh; left).
    destruct (IH (fill_class enc k (sh k) a0) Hnd) as (tf & Hrun & Htf & Hin & Hout).
    { rewrite fill_class_length. exact Hlen. }
    { intros k' Hk'. apply Hsh. right. exact Hk'. }
    exists tf. split; [|split; [exact Htf|split]].
    + assert (Hstep : assign_class enc k (sh k) a0
                      = Ok (fill_class enc k (sh k) a0)).
      { unfold assign_class. rewrite Hshk, Nat.eqb_refl. reflexivity. }
      cbn [for_each]. cbv beta. rewrite Hstep. exact Hrun.
    + intros k' Hk'. apply elem_of_cons in Hk' as [->|Hk']; [|exact (Hin k' Hk')].
      rewrite (Hout k Hk). apply fill_class_select_eq; assumption.
    + intros k' Hk'. apply not_elem_of_cons in Hk' as [Hne Hk'].
      rewrite (Hout k' Hk'). apply fill_class_select_ne. exact Hne.
Qed.

(** ** The allocation *)

(** Arithmetic with quotients and remainders by 5: the division
    equations of the terms at hand, then linear arithmetic. *)
Lemma div5_spec (t : nat) :
  (t = 5 * (t / 5) + t mod 5 /\ t mod 5 < 5)%nat.
Proof.
  split; [apply Nat.div_mod_eq | apply Nat.mod_upper_bound; discriminate].
Qed.

Ltac div5_fact t :=
  lazymatch goal with
  | _ : (t = 5 * (t / 5) + t mod 5 /\ t mod 5 < 5)%nat |- _ => fail
  | _ => pose proof (div5_spec t)
  end.

Ltac lia_div :=
  repeat match goal with
         | |- context [(?t / 5)%nat] => div5_fact t
         | |- context [(?t mod 5)%nat] => div5_fact t
         | _ : context [(?t / 5)%nat] |- _ => div5_fact t
         | _ : context [(?t mod 5)%nat] |- _ => div5_fact t
         end;
  lia.

(** A sorted array holds the members of a class in one block. *)
Lemma sorted_block (l : list nat) (k : nat) :
  StronglySorted le l ->
  exists A C,
    l = A ++ replicate (count_of k l) k ++ C
    /\ Forall (fun x => x < k)%nat A /\ Forall (fun x => k < x)%nat C.
Proof.
  induction 1 as [|x l _ IH Hx].
  - exists [], []. repeat split; constructor.
  - destruct IH as (A & C & Hl & HA & HC).
    rewrite count_of_cons. remember (count_of k l) as c eqn:Hc.
    assert (Hhead : forall y A', A = y :: A' -> (x < k)%nat).
    { intros y A' ->. apply Forall_cons in HA as [Hy _].
      assert (Hxy : (x <= y)%nat).
      { eapply Forall_forall in Hx; [exact Hx|]. rewrite Hl. left. }
      lia. }
    destruct (lt_eq_lt_dec x k) as [[Hlt|Heq]|Hgt].
    + exists (x :: A), C. rewrite decide_False by lia. cbn [app Nat.add].
      split; [f_equal; exact Hl|]. split; [constructor; assumption | exact HC].
    + subst x. destruct A as [|y A']; [|specialize (Hhead y A' eq_refl); lia].
      exists [], C. rewrite decide_True by reflexivity. cbn [app] in *.
      split; [cbn; f_equal; exact Hl|]. split; [constructor | exact HC].
    + destruct A as [|y A']; [|specialize (Hhead y A' eq_refl); lia].
      assert (c = 0%nat) as ->.
      { destruct c as [|c]; [reflexivity|]. exfalso.
        assert (Hk : k ∈ l) by (apply count_of_pos; lia).
        eapply Forall_forall in Hx; [|exact Hk]. lia. }
      exists [], (x :: C). rewrite decide_False by lia.
      cbn [app replicate Nat.add] in *.
      split; [f_equal; exact Hl|]. split; constructor; assumption.
Qed.

Lemma count_of_omap {A : Type} `{EqDecision A} (g : nat -> option A) (v : A)
    (L : list nat) :
  count_of v (omap g L) = length (filter (fun p => g p = Some v) L).
Proof.
  induction L as [|p L IH]; [reflexivity|].
  cbn [omap list_omap]. rewrite filter_cons.
  destruct (g p) as [x|] eqn:Hg.
  - rewrite count_of_cons, IH.
    destruct (decide (x = v)) as [->|Hne].
    + rewrite decide_True by reflexivity. reflexivity.
    + rewrite decide_False by congruence. reflexivity.
  - rewrite decide_False by discriminate. exact IH.
Qed.

(** [allocation[i][k]] counts the positions [i], [i + 5], ... of the
    sorted array that hold the class [k]. *)
Lemma bincount_stride (i k : nat) (l : list nat) :
  (i < 5)%nat ->
  bincount k (stride i 5 l)
  = length (filter (fun p => (p mod 5 = i)%nat /\ l !! p = Some k)
                   (seq 0 (length l))).
Proof.
  intros Hi. unfold bincount, stride. rewrite count_of_omap.
  apply filter_length_ext, Forall_forall. intros p _.
  destruct (Nat.leb_spec i p) as [Hle|Hgt]; cbn [andb].
  - destruct (Nat.eqb_spec ((p - i) mod 5) 0) as [Hm|Hm].
    + assert (p mod 5 = i)%nat by lia_div. tauto.
    + assert (p mod 5 <> i)%nat by lia_div.
      split; [discriminate | tauto].
  - assert (p mod 5 <> i)%nat by lia_div.
    split; [discriminate | tauto].
Qed.

Lemma count_residue (i a c : nat) :
  (i < 5)%nat ->
  length (filter (fun p => p mod 5 = i)%nat (seq a c))
  = ((a + c + 4 - i) / 5 - (a + 4 - i) / 5)%nat.
Proof.
  intros Hi. induction c as [|c IH].
  - cbn. rewrite Nat.add_0_r. lia.
  - rewrite seq_S, filter_app, length_app, IH.
    rewrite filter_cons, filter_nil.
    destruct (decide ((a + c) mod 5 = i)%nat) as [Hm|Hm]; cbn [length]; lia_div.
Qed.

Lemma bincount_stride_block (i k c : nat) (A C : list nat) :
  (i < 5)%nat ->
  Forall (fun x => x < k)%nat A -> Forall (fun x => k < x)%nat C ->
  bincount k (stride i 5 (A ++ replicate c k ++ C))
  = ((length A + c + 4 - i) / 5 - (length A + 4 - i) / 5)%nat.
Proof.
  intros Hi HA HC. rewrite bincount_stride by exact Hi.
  rewrite <- (count_residue i (length A) c Hi).
  rewrite !length_app, length_replicate.
  rewrite seq_app, (seq_app c). cbn [Nat.add].
  rewrite !filter_app, !length_app.
  rewrite (filter_length_none _ (seq 0 (length A))).
  2:{ apply Forall_forall. intros p Hp. apply elem_of_seq in Hp.
      rewrite lookup_app_l by lia. intros [_ Hk].
      eapply Forall_lookup_1 in HA; [|exact Hk]. cbv beta in HA. lia. }
  rewrite (filter_length_none _ (seq (length A + c) (length C))).
  2:{ apply Forall_forall. intros p Hp. apply elem_of_seq in Hp.
      rewrite lookup_app_r by lia.
      rewrite lookup_app_r by (rewrite length_replicate; lia).
      intros [_ Hk].
      eapply Forall_lookup_1 in HC; [|exact Hk]. cbv beta in HC. lia. }
  rewrite Nat.add_0_l, Nat.add_0_r.
  apply filter_length_ext, Forall_forall. intros p Hp. apply elem_of_seq in Hp.
  rewrite lookup_app_r by lia.
  rewrite lookup_app_l by (rewrite length_replicate; lia).
  rewrite lookup_replicate_2 by lia. tauto.
Qed.

(** Every fold gets its share of every class, rounded down or up, and
    the shares add up to the class. *)
Lemma allocation_share (i k : nat) (enc : list nat) :
  (i < 5)%nat ->
  (count_of k enc / 5 <= bincount k (stride i 5 (merge_sort le enc))
   <= (count_of k enc + 4) / 5)%nat.
Proof.
  intros Hi.
  destruct (sorted_block (merge_sort le enc) k) as (A & C & Hl & HA & HC).
  { apply StronglySorted_merge_sort; apply _. }
  rewrite (count_of_Permutation k _ enc) in Hl by apply merge_sort_Permutation.
  rewrite Hl, bincount_stride_block by assumption. lia_div.
Qed.

Lemma residues_total (t : nat) :
  ((t + 4 - 0) / 5 + (t + 4 - 1) / 5 + (t + 4 - 2) / 5 + (t + 4 - 3) / 5
   + (t + 4 - 4) / 5)%nat = t.
Proof. lia_div. Qed.

Lemma differences_total (x0 x1 x2 x3 x4 y0 y1 y2 y3 y4 s t : nat) :
  (y0 <= x0 -> y1 <= x1 -> y2 <= x2 -> y3 <= x3 -> y4 <= x4 ->
   x0 + x1 + x2 + x3 + x4 = s -> y0 + y1 + y2 + y3 + y4 = t ->
   (x0 - y0) + (x1 - y1) + (x2 - y2) + (x3 - y3) + (x4 - y4) = s - t)%nat.
Proof. lia. Qed.

Lemma allocation_total (k : nat) (enc : list nat) :
  (bincount k (stride 0 5 (merge_sort le enc))
   + bincount k (stride 1 5 (merge_sort le enc))
   + bincount k (stride 2 5 (merge_sort le enc))
   + bincount k (stride 3 5 (merge_sort le enc))
   + bincount k (stride 4 5 (merge_sort le enc)))%nat
  = count_of k enc.
Proof.
  destruct (sorted_block (merge_sort le enc) k) as (A & C & Hl & HA & HC).
  { apply StronglySorted_merge_sort; apply _. }
  rewrite (count_of_Permutation k _ enc) in Hl by apply merge_sort_Permutation.
  rewrite Hl, !bincount_stride_block by (assumption || lia).
  pose proof (residues_total (length A + count_of k enc)) as Hac.
  pose proof (residues_total (length A)) as Ha.
  transitivity (length A + count_of k enc - length A)%nat; [|lia].
  apply differences_total; try assumption;
    apply Nat.Div0.div_le_mono; lia.
Qed.

(** ** The fold numbers of the samples *)

Lemma folds_for_class_five (alloc : list (list nat)) (k : nat) :
  folds_for_class 5 alloc k
  = replicate (nth k (nth 0 alloc []) 0) 0
    ++ replicate (nth k (nth 1 alloc []) 0) 1
    ++ replicate (nth k (nth 2 alloc []) 0) 2
    ++ replicate (nth k (nth 3 alloc []) 0) 3
    ++ replicate (nth k (nth 4 alloc []) 0) 4.
Proof. unfold folds_for_class. cbn. rewrite app_nil_r. reflexivity. Qed.

Lemma allocation_nth (n_classes i k : nat) (y_order : list nat) :
  (i < 5)%nat -> (k < n_classes)%nat ->
  nth k (nth i (allocation 5 n_classes y_order) []) 0
  = bincount k (stride i 5 y_order).
Proof.
  intros Hi Hk. unfold allocation.
  erewrite (nth_lookup_Some _ i []).
  2:{ rewrite lookup_map, (lookup_seq_lt 0 5 i Hi). reflexivity. }
  apply nth_lookup_Some.
  rewrite lookup_map, (lookup_seq_lt 0 n_classes k Hk). reflexivity.
Qed.

Section Five.

Variable rng_shuffle : nat -> list nat -> list nat.
Variable np_empty : nat -> list nat.

(** The random generator permutes the array it shuffles; [np.empty]
    returns an array of the length asked for. *)
Hypothesis rng_shuffle_Permutation : forall k a, rng_shuffle k a ≡ₚ a.
Hypothesis np_empty_length : forall n, length (np_empty n) = n.

(** The fold numbers of class [k], after the shuffle. *)
Definition shuffled (y : list Z) (k : nat) : list nat :=
  rng_shuffle k
    (folds_for_class 5
       (allocation 5 (length (classes y)) (merge_sort le (encode y))) k).

Lemma shuffled_count (y : list Z) (i k : nat) :
  (i < 5)%nat -> (k < length (classes y))%nat ->
  count_of i (shuffled y k)
  = bincount k (stride i 5 (merge_sort le (encode y))).
Proof.
  intros Hi Hk. unfold shuffled.
  rewrite (count_of_Permutation i _ _ (rng_shuffle_Permutation _ _)).
  rewrite folds_for_class_five, !count_of_app, !count_of_replicate.
  rewrite !allocation_nth by (exact Hk || lia).
  repeat case_decide; subst; lia.
Qed.

Lemma shuffled_length (y : list Z) (k : nat) :
  (k < length (classes y))%nat ->
  length (shuffled y k) = bincount k (encode y).
Proof.
  intros Hk. unfold shuffled.
  rewrite (Permutation_length (rng_shuffle_Permutation _ _)).
  rewrite folds_for_class_five, !length_app, !length_replicate.
  rewrite !allocation_nth by (exact Hk || lia).
  change (bincount k (encode y)) with (count_of k (encode y)).
  rewrite <- (allocation_total k (encode y)). lia.
Qed.

Lemma shuffled_lt (y : list Z) (k : nat) :
  Forall (fun t => t < 5)%nat (shuffled y k).
Proof.
  unfold shuffled. rewrite rng_shuffle_Permutation, folds_for_class_five.
  repeat (apply Forall_app; split); apply Forall_replicate; lia.
Qed.

(** [_make_test_folds] returns when some class has five members: every
    sample has the number of one of the five folds, and the samples of
    every class are dealt out evenly. *)
Lemma make_test_folds_five (y : list Z) :
  (exists v, 5 <= count_of v y)%nat ->
  exists test_folds,
    make_test_folds 5 rng_shuffle np_empty y = Ok test_folds
    /\ length test_folds = length y
    /\ Forall (fun t => t < 5)%nat test_folds
    /\ forall (v : Z) (i : nat),
         (i < 5)%nat ->
         (count_of v y / 5
          <= count_of v (select (map (fun t => t =? i)%nat test_folds) y)
          <= (count_of v y + 4) / 5)%nat.
Proof.
  intros (v0 & Hv0).
  assert (Hin0 : v0 ∈ y) by (apply count_of_pos; lia).
  destruct (assign_classes (encode y) (shuffled y)
              (seq 0 (length (classes y))) (np_empty (length y)))
    as (tf & Hrun & Hlen & Hsel & _).
  { apply NoDup_seq. }
  { rewrite np_empty_length, encode_length. reflexivity. }
  { intros k Hk. apply elem_of_seq in Hk. apply shuffled_length. lia. }
  rewrite encode_length in Hlen.
  exists tf. split; [|split; [exact Hlen|split]].
  - unfold make_test_folds.
    destruct (forallb _ _) eqn:Hall; [exfalso | exact Hrun].
    rewrite forallb_forall in Hall.
    specialize (Hall (bincount (index_of v0 (classes y)) (encode y))).
    rewrite bincount_encode in Hall by exact Hin0.
    assert (Hlt : (count_of v0 y <? 5)%nat = true).
    { apply Hall. rewrite <- (bincount_encode y v0 Hin0).
      apply (in_map (fun k => bincount k (encode y))), in_seq.
      pose proof (index_of_lt v0 (classes y)) as Hidx.
      rewrite classes_elem in Hidx. specialize (Hidx Hin0). lia. }
    apply Nat.ltb_lt in Hlt. lia.
  - apply Forall_lookup_2. intros j t Ht.
    destruct (lookup_lt_is_Some_2 (encode y) j) as [k Hk].
    { rewrite encode_length, <- Hlen. eapply lookup_lt_Some. exact Ht. }
    assert (Hklt : (k < length (classes y))%nat).
    { eapply Forall_lookup_1 in Hk; [exact Hk | apply encode_lt]. }
    assert (Hmem : t ∈ shuffled y k).
    { rewrite <- (Hsel k) by (apply elem_of_seq; lia).
      apply select_elem. exists j. split; [|exact Ht].
      rewrite lookup_map, Hk. cbn. rewrite Nat.eqb_refl. reflexivity. }
    eapply Forall_forall in Hmem; [exact Hmem | apply shuffled_lt].
  - intros v i Hi.
    destruct (decide (v ∈ y)) as [Hv|Hv].
    + set (g := fun w => index_of w (classes y)).
      assert (Hk : (g v < length (classes y))%nat).
      { apply index_of_lt, classes_elem. exact Hv. }
      rewrite <- (select_count g y tf v i).
      2:{ apply Forall_forall. intros w Hw Hg.
          apply (index_of_eq w v (classes y)); [| |exact Hg];
            apply classes_elem; assumption. }
      replace (map (fun w => g w =? g v)%nat y)
        with (map (fun e => e =? g v)%nat (encode y))
        by (unfold encode; rewrite map_map; reflexivity).
      rewrite Hsel by (apply elem_of_seq; lia).
      rewrite shuffled_count by assumption.
      rewrite <- (bincount_encode y v Hv).
      apply allocation_share. exact Hi.
    + rewrite (count_of_notin v y Hv), count_of_notin; [cbn; lia|].
      intros Hsub. apply Hv.
      eapply elem_of_sublist; [exact Hsub | apply select_sublist].
Qed.

(** ** The five folds *)

Lemma select_complement {A : Type} (mask : list bool) (a : list A) :
  length mask = length a ->
  select (map negb mask) a ++ select mask a ≡ₚ a.
Proof.
  revert a. induction mask as [|b mask IH]; intros [|x a] Hlen;
    cbn [length] in Hlen; try discriminate; [reflexivity|].
  cbn [map select]. destruct b; cbn [negb].
  - rewrite <- Permutation_middle. constructor. apply IH. lia.
  - cbn [app]. constructor. apply IH. lia.
Qed.

Lemma test_index_lookup (test_folds : list nat) (i j : nat) :
  map (fun t => t =? i)%nat test_folds !! j = Some true
  <-> test_folds !! j = Some i.
Proof.
  rewrite lookup_map. destruct (test_folds !! j) as [t|]; cbn.
  - destruct (Nat.eqb_spec t i) as [->|Hne]; split; congruence.
  - split; discriminate.
Qed.

(** [split] yields five pairs (train, test).  The test sets are
    pairwise disjoint and hold every sample once; the train set of a fold
    is the rest of the samples; every test set holds of every class its
    fifth part, rounded down or up. *)
Lemma split_five {A : Type} (X : list A) (y : list Z) :
  length y = length X ->
  (exists v, 5 <= count_of v y)%nat ->
  exists folds,
    split 5 rng_shuffle np_empty X y = Ok folds
    /\ length folds = 5%nat
    /\ (forall j k fj fk,
          folds !! j = Some fj -> folds !! k = Some fk -> j <> k ->
          forall i, i ∈ fj.2 -> i ∉ fk.2)
    /\ (forall i, (i < length X)%nat ->
          exists k fold, folds !! k = Some fold /\ i ∈ fold.2)
    /\ (forall k train test,
          folds !! k = Some (train, test) ->
          NoDup test
          /\ train ++ test ≡ₚ seq 0 (length X)
          /\ exists y_true,
               np_take y test = Ok y_true
               /\ forall v : Z,
                    (count_of v y / 5 <= count_of v y_true
                     <= (count_of v y + 4) / 5)%nat).
Proof.
  intros Hlen Hfive.
  destruct (make_test_folds_five y Hfive) as (tf & Hrun & Htf & Hlt & Hshare).
  set (fold_of := fun i : nat =>
         (select (map negb (map (fun t => t =? i)%nat tf)) (np_arange (length X)),
          select (map (fun t => t =? i)%nat tf) (np_arange (length X)))).
  assert (Hfold : forall (folds := map fold_of (seq 0 5)) k fold,
             folds !! k = Some fold -> (k < 5)%nat /\ fold = fold_of k).
  { intros folds k fold Hk. subst folds. rewrite lookup_map in Hk.
    destruct (seq 0 5 !! k) as [k'|] eqn:Hk'; [|discriminate].
    apply lookup_seq in Hk' as [-> Hk']. injection Hk as <-. auto. }
  assert (Htest : forall i j,
             j ∈ (fold_of i).2 <-> tf !! j = Some i).
  { intros i j. unfold fold_of, np_arange. cbn [snd].
    rewrite <- test_index_lookup.
    replace (length X) with (length (map (fun t => t =? i)%nat tf))
      by (rewrite length_map; lia).
    apply select_seq_elem. }
  exists (map fold_of (seq 0 5)).
  split; [|split; [reflexivity|split; [|split]]].
  - unfold split. rewrite Hlen, Nat.eqb_refl. cbn [negb].
    destruct (Nat.ltb_spec (length X) 5) as [Hsmall|_].
    { destruct Hfive as (v & Hv). pose proof (count_of_le v y). lia. }
    rewrite Hrun. reflexivity.
  - intros j k fj fk Hj Hk Hjk i Hi Hi'.
    apply Hfold in Hj as [_ ->]. apply Hfold in Hk as [_ ->].
    apply Htest in Hi, Hi'. congruence.
  - intros i Hi.
    destruct (lookup_lt_is_Some_2 tf i) as [t Ht]; [lia|].
    assert (Ht5 : (t < 5)%nat).
    { eapply Forall_lookup_1 in Ht; [exact Ht | exact Hlt]. }
    exists t, (fold_of t). split; [|apply Htest; exact Ht].
    rewrite lookup_map, (lookup_seq_lt 0 5 t Ht5). reflexivity.
  - intros k train test Hk. apply Hfold in Hk as [Hk5 Heq].
    injection Heq as -> ->. split; [|split].
    + eapply sublist_NoDup; [apply NoDup_seq | apply select_sublist].
    + apply select_complement. unfold np_arange.
      rewrite length_map, length_seq. lia.
    + exists (select (map (fun t => t =? k)%nat tf) y). split.
      * unfold np_arange.
        replace (length X) with (length (map (fun t => t =? k)%nat tf))
          by (rewrite length_map; lia).
        rewrite np_take_select by (rewrite length_map; lia).
        reflexivity.
      * intros v. apply Hshare. exact Hk5.
Qed.

End Five.

End StratifiedKFold.

(* ===================================================================== *)
(** * Part II.  [EEG_1D_CNN.ipynb]: the cross-validation loop             *)
(* ===================================================================== *)

Module CrossValidation.
Import Python ConfMat StratifiedKFold.

(** The number of folds, [foldNum], and of splits of the
    [StratifiedKFold]. *)
Definition foldNum : nat := 5.
Definition n_splits : nat := 5.

(** [History.history]: the curves of one call of [fit]. *)
Record history (F : Type) : Type := {
  h_loss : list F;
  h_val_loss : list F;
  h_accuracy : list F;
  h_val_accuracy : list F
}.
Arguments h_loss {F} h.
Arguments h_val_loss {F} h.
Arguments h_accuracy {F} h.
Arguments h_val_accuracy {F} h.

(** The variables the loop updates. *)
Record cv_state (F : Type) : Type := {
  f : nat;
  cm_list : list (list (list F));
  precisionNet : list F;
  recallNet : list F;
  f1_MacroNet : list F;
  f1_weightedNet : list F;
  accNet : list F;
  train_loss : list (list F);
  val_loss : list (list F);
  train_accuracy : list (list F);
  val_accuracy : list (list F)
}.
Arguments f {F} c.
Arguments cm_list {F} c.
Arguments precisionNet {F} c.
Arguments recallNet {F} c.
Arguments f1_MacroNet {F} c.
Arguments f1_weightedNet {F} c.
Arguments accNet {F} c.
Arguments train_loss {F} c.
Arguments val_loss {F} c.
Arguments train_accuracy {F} c.
Arguments val_accuracy {F} c.

Section Loop.

Context {F : Type} `{Arith F}.

(** A sample (one row of [features]), a row of [labels_categorical], and a
    Keras model with its weights. *)
Variables (sample onehot estimator : Type).

(** The splitter is [StratifiedKFold.split] with the random generator of
    [random_state=100] and [np.empty] as its parameters.  The rest of the
    library: [train_test_split], which raises when the rows are too few
    for the stratified split it is asked for; [fit] (which updates the
    estimator and returns the history), [predict_classes],
    [confusion_matrix] and the metrics, read as functions that return.
    [create_estimator] is the model [create_model] returns for the best
    parameters, built anew for every fold. *)
Variable rng_shuffle : nat -> list nat -> list nat.
Variable np_empty : nat -> list nat.
Variable train_test_split :
  list sample -> list onehot ->
  result (list sample * list sample * list onehot * list onehot).
Variable create_estimator : estimator.
Variable fit :
  estimator -> list sample -> list onehot -> list sample -> list onehot ->
  estimator * history F.
Variable predict_classes : estimator -> list sample -> list Z.
Variable confusion_matrix : list Z -> list Z -> count_matrix.
Variables precision_macro recall_macro f1_macro f1_weighted accuracy_score :
  list Z -> list Z -> F.

(** The data of the notebook. *)
Variable features : list sample.
Variable labels : list Z.
Variable labels_categorical : list onehot.

(** The state before the loop: [np.zeros([foldNum,])] for the scores. *)
Definition initial_state : cv_state F :=
  {| f := 0; cm_list := [];
     precisionNet := replicate foldNum f_zero;
     recallNet := replicate foldNum f_zero;
     f1_MacroNet := replicate foldNum f_zero;
     f1_weightedNet := replicate foldNum f_zero;
     accNet := replicate foldNum f_zero;
     train_loss := []; val_loss := [];
     train_accuracy := []; val_accuracy := [] |}.

(** The body of [for train, test in kfold.split(features, labels)].
    [tf.keras.backend.clear_session()], [estimator.summary()] and the
    [print] calls are left out; the commented-out standardisation is not
    part of the code. *)
Definition fold_body (st : cv_state F) (fold : list nat * list nat)
  : result (cv_state F) :=
  let '(train, test) := fold in
  trainingFeatures ← np_take features train;
  testFeatures ← np_take features test;
  let estimator0 := create_estimator in
  y_cat ← np_take labels_categorical train;
  parts ← train_test_split trainingFeatures y_cat;
  let '(X_train, X_val, y_train, y_val) := parts in
  let '(estimator1, dummy) := fit estimator0 X_train y_train X_val y_val in
  let predicted_labelsNet := predict_classes estimator1 testFeatures in
  y_true ← np_take labels test;
  let cm := confusion_matrix y_true predicted_labelsNet in
  let cm := normalize_rows cm in
  precisionNet1 ← np_set (precisionNet st) (f st)
                         (precision_macro y_true predicted_labelsNet);
  recallNet1 ← np_set (recallNet st) (f st)
                      (recall_macro y_true predicted_labelsNet);
  f1_MacroNet1 ← np_set (f1_MacroNet st) (f st)
                        (f1_macro y_true predicted_labelsNet);
  f1_weightedNet1 ← np_set (f1_weightedNet st) (f st)
                           (f1_weighted y_true predicted_labelsNet);
  accNet1 ← np_set (accNet st) (f st)
                   (accuracy_score y_true predicted_labelsNet);
  Ok {| f := f st + 1;
        cm_list := cm_list st ++ [cm];
        precisionNet := precisionNet1;
        recallNet := recallNet1;
        f1_MacroNet := f1_MacroNet1;
        f1_weightedNet := f1_weightedNet1;
        accNet := accNet1;
        train_loss := train_loss st ++ [h_loss dummy];
        val_loss := val_loss st ++ [h_val_loss dummy];
        train_accuracy := train_accuracy st ++ [h_accuracy dummy];
        val_accuracy := val_accuracy st ++ [h_val_accuracy dummy] |}.

(** [kfold.split(features, labels)] for
    [kfold = StratifiedKFold(n_splits=5, random_state=100, shuffle=True)]. *)
Definition kfold_split : result (list (list nat * list nat)) :=
  split n_splits rng_shuffle np_empty features labels.

(** The loop. *)
Definition cv_loop : result (cv_state F) :=
  folds ← kfold_split;
  for_each fold_body folds initial_state.

(** The estimator of a fold, as the loop trains it from the rows at the
    indices [train]. *)
Definition fold_estimator (trainingFeatures : list sample)
    (y_cat : list onehot) : result estimator :=
  parts ← train_test_split trainingFeatures y_cat;
  let '(X_train, X_val, y_train, y_val) := parts in
  Ok (fst (fit create_estimator X_train y_train X_val y_val)).

(** [train_test_split] returns for the rows at the indices [train]. *)
Definition split_returns (train : list nat) : Prop :=
  forall trainingFeatures y_cat,
    np_take features train = Ok trainingFeatures ->
    np_take labels_categorical train = Ok y_cat ->
    exists parts, train_test_split trainingFeatures y_cat = Ok parts.

(** The five score arrays of a state, and the five scores of a fold. *)
Definition scores (st : cv_state F) : list (list F) :=
  [precisionNet st; recallNet st; f1_MacroNet st; f1_weightedNet st; accNet st].

Definition fold_scores (y_true predicted : list Z) : list F :=
  [precision_macro y_true predicted; recall_macro y_true predicted;
   f1_macro y_true predicted; f1_weighted y_true predicted;
   accuracy_score y_true predicted].

(** Indices below the number of samples. *)
Definition valid_fold (n : nat) (fold : list nat * list nat) : Prop :=
  Forall (fun i => (i < n)%nat) fold.1 /\ Forall (fun i => (i < n)%nat) fold.2.

(** The scores of the fold with index [k] in the final state are those of
    [y_true] and [predicted]. *)
Definition fold_scores_at (st : cv_state F) (k : nat)
    (y_true predicted : list Z) : Prop :=
  precisionNet st !! k = Some (precision_macro y_true predicted)
  /\ recallNet st !! k = Some (recall_macro y_true predicted)
  /\ f1_MacroNet st !! k = Some (f1_macro y_true predicted)
  /\ f1_weightedNet st !! k = Some (f1_weighted y_true predicted)
  /\ accNet st !! k = Some (accuracy_score y_true predicted).

(** The rows, the estimator and the scores of the fold (train, test): the
    estimator is fitted on the rows at the train indices, and the scores
    at index [k] of the state are those of the labels at the test indices
    and the predictions for the feature rows at the test indices. *)
Definition held_out (st : cv_state F) (k : nat) (train test : list nat)
  : Prop :=
  exists trainingFeatures y_cat testFeatures y_true estimator1,
    np_take features train = Ok trainingFeatures
    /\ np_take labels_categorical train = Ok y_cat
    /\ np_take features test = Ok testFeatures
    /\ np_take labels test = Ok y_true
    /\ np_take (zip features labels) test = Ok (zip testFeatures y_true)
    /\ fold_estimator trainingFeatures y_cat = Ok estimator1
    /\ fold_scores_at st k y_true (predict_classes estimator1 testFeatures).

(** Every test set holds of every class its fifth part, rounded down or
    up. *)
Definition stratified (test : list nat) : Prop :=
  exists y_true,
    np_take labels test = Ok y_true
    /\ forall v : Z,
         (count_of v labels / n_splits <= count_of v y_true
          <= (count_of v labels + (n_splits - 1)) / n_splits)%nat.

Lemma fold_body_Ok (st : cv_state F) (train test : list nat)
    (trainingFeatures testFeatures : list sample) (y_cat : list onehot)
    (y_true : list Z) (estimator1 : estimator) :
  np_take features train = Ok trainingFeatures ->
  np_take features test = Ok testFeatures ->
  np_take labels_categorical train = Ok y_cat ->
  np_take labels test = Ok y_true ->
  fold_estimator trainingFeatures y_cat = Ok estimator1 ->
  Forall (fun a => (f st < length a)%nat) (scores st) ->
  exists st',
    fold_body st (train, test) = Ok st'
    /\ f st' = S (f st)
    /\ scores st'
       = zip_with (fun a v => <[f st := v]> a) (scores st)
           (fold_scores y_true (predict_classes estimator1 testFeatures)).
Proof.
  intros Htr Hte Hcat Htrue Hest Hlen.
  unfold scores in Hlen.
  repeat match goal with
         | Hc : Forall _ (_ :: _) |- _ =>
             apply Forall_cons in Hc; destruct Hc as [? Hc]
         end.
  unfold fold_body, fold_scores. unfold fold_estimator in Hest.
  rewrite Htr, Hte, Hcat, Htrue. cbn [mbind result_bind].
  destruct (train_test_split trainingFeatures y_cat)
    as [[[[X_train X_val] y_train] y_val]|e]; [|discriminate].
  cbn [mbind result_bind] in Hest |- *.
  destruct (fit create_estimator X_train y_train X_val y_val)
    as [estimator2 dummy].
  cbn [fst] in Hest. injection Hest as ->.
  rewrite !np_set_Ok by assumption. cbn [mbind result_bind fst].
  eexists. split; [reflexivity|]. split; [cbn; lia | reflexivity].
Qed.

Lemma np_take_exists {A : Type} (a : list A) (idx : list nat) :
  Forall (fun i => (i < length a)%nat) idx -> exists a', np_take a idx = Ok a'.
Proof.
  intros Hidx. destruct a as [|d a0] eqn:Ha.
  - destruct idx as [|i idx]; [exists []; reflexivity|].
    apply Forall_cons in Hidx as [Hi _]. cbn in Hi. lia.
  - rewrite <- Ha in *. eexists. apply (np_take_Ok a idx d Hidx).
Qed.

Lemma lookup_scores_insert_eq (A : list (list F)) (V : list F) (i : nat) :
  length A = length V ->
  Forall (fun a => (i < length a)%nat) A ->
  (.!! i) <$> zip_with (fun a v => <[i := v]> a) A V = Some <$> V.
Proof.
  revert V. induction A as [|a A IH]; intros [|v V] Hlen Hi;
    cbn in Hlen; try discriminate; [reflexivity|].
  apply Forall_cons in Hi as [Ha Hi]. cbn.
  rewrite list_lookup_insert_eq by exact Ha. f_equal. apply IH; [lia | exact Hi].
Qed.

Lemma lookup_scores_insert_ne (A : list (list F)) (V : list F) (i j : nat) :
  length A = length V -> i <> j ->
  (.!! j) <$> zip_with (fun a v => <[i := v]> a) A V = (.!! j) <$> A.
Proof.
  revert V. induction A as [|a A IH]; intros [|v V] Hlen Hij;
    cbn in Hlen; try discriminate; [reflexivity|].
  cbn. rewrite list_lookup_insert_ne by exact Hij. f_equal.
  apply IH; [lia | exact Hij].
Qed.

Lemma length_scores_insert (A : list (list F)) (V : list F) (i n : nat) :
  length A = length V ->
  Forall (fun a => length a = n) A ->
  Forall (fun a => length a = n) (zip_with (fun a v => <[i := v]> a) A V).
Proof.
  revert V. induction A as [|a A IH]; intros [|v V] Hlen Hn;
    cbn in Hlen; try discriminate; [constructor|].
  apply Forall_cons in Hn as [Ha Hn]. cbn. constructor.
  - rewrite length_insert. exact Ha.
  - apply IH; [lia | exact Hn].
Qed.

Lemma fold_scores_at_intro (st : cv_state F) (k : nat)
    (y_true predicted : list Z) :
  (.!! k) <$> scores st = Some <$> fold_scores y_true predicted ->
  fold_scores_at st k y_true predicted.
Proof.
  unfold scores, fold_scores, fold_scores_at. cbn. intros Heq.
  injection Heq as -> -> -> -> ->. repeat split; reflexivity.
Qed.

(** The loop over the folds that remain: every fold writes its scores at
    its own index and leaves the earlier ones as they are. *)
Lemma for_each_fold_body (rest : list (list nat * list nat)) :
  forall st : cv_state F,
    Forall (valid_fold (length features)) rest ->
    Forall (fun fold => split_returns fold.1) rest ->
    length labels = length features ->
    length labels_categorical = length features ->
    (f st + length rest <= foldNum)%nat ->
    Forall (fun a => length a = foldNum) (scores st) ->
    exists st',
      for_each fold_body rest st = Ok st'
      /\ f st' = (f st + length rest)%nat
      /\ Forall (fun a => length a = foldNum) (scores st')
      /\ (forall j, (j < f st)%nat ->
            (.!! j) <$> scores st' = (.!! j) <$> scores st)
      /\ (forall k train test,
            rest !! k = Some (train, test) ->
            exists trainingFeatures y_cat testFeatures y_true estimator1,
              np_take features train = Ok trainingFeatures
              /\ np_take labels_categorical train = Ok y_cat
              /\ np_take features test = Ok testFeatures
              /\ np_take labels test = Ok y_true
              /\ fold_estimator trainingFeatures y_cat = Ok estimator1
              /\ (.!! (f st + k)%nat) <$> scores st'
                 = Some <$> fold_scores y_true
                              (predict_classes estimator1 testFeatures)).
Proof.
  induction rest as [|[train test] rest IH];
    intros st Hvalid Hret Hlab Hcat Hf Hlen.
  - exists st. cbn [for_each length]. split; [reflexivity|].
    split; [lia|]. split; [exact Hlen|]. split; [reflexivity|].
    intros k tr te Hk. discriminate Hk.
  - apply Forall_cons in Hvalid as [[Htr Hte] Hvalid]. cbn [fst snd] in Htr, Hte.
    apply Forall_cons in Hret as [Hsplit Hret]. cbn [fst] in Hsplit.
    cbn [length] in Hf.
    destruct (np_take_exists features train Htr) as (X_tr & EX_tr).
    destruct (np_take_exists features test Hte) as (X_te & EX_te).
    destruct (np_take_exists labels_categorical train) as (y_cat & Ey_cat);
      [rewrite Hcat; exact Htr|].
    destruct (np_take_exists labels test) as (y_true & Ey_true);
      [rewrite Hlab; exact Hte|].
    destruct (Hsplit X_tr y_cat EX_tr Ey_cat) as (parts & Hparts).
    assert (Hest : exists estimator1, fold_estimator X_tr y_cat = Ok estimator1).
    { unfold fold_estimator. rewrite Hparts. cbn [mbind result_bind].
      destruct parts as [[[X_train X_val] y_train] y_val]. eauto. }
    destruct Hest as (estimator1 & Hest).
    assert (Hlt : Forall (fun a => (f st < length a)%nat) (scores st)).
    { eapply Forall_impl; [exact Hlen|]. intros a Ha. cbv beta in Ha.
      lia. }
    destruct (fold_body_Ok st train test X_tr X_te y_cat y_true estimator1
                EX_tr EX_te Ey_cat Ey_true Hest Hlt)
      as (st1 & Hbody & Hf1 & Hsc1).
    assert (Hlen1 : Forall (fun a => length a = foldNum) (scores st1)).
    { rewrite Hsc1. apply length_scores_insert; [reflexivity | exact Hlen]. }
    destruct (IH st1 Hvalid Hret Hlab Hcat)
      as (st' & Hrun & Hf' & Hlen' & Hframe & Hfold);
      [lia | exact Hlen1 |].
    exists st'. split; [cbn [for_each]; rewrite Hbody; exact Hrun|].
    split; [cbn [length]; lia|]. split; [exact Hlen'|]. split.
    + intros j Hj. rewrite (Hframe j) by lia. rewrite Hsc1.
      apply lookup_scores_insert_ne; [reflexivity | lia].
    + intros k tr te Hk. destruct k as [|k].
      * injection Hk as <- <-.
        exists X_tr, y_cat, X_te, y_true, estimator1.
        repeat (split; [assumption|]).
        rewrite Nat.add_0_r, (Hframe (f st)) by lia. rewrite Hsc1.
        apply lookup_scores_insert_eq; [reflexivity | exact Hlt].
      * destruct (Hfold k tr te Hk)
          as (a & b & c & d & e & H1 & H2 & H3 & H4 & H5 & H6).
        exists a, b, c, d, e. repeat (split; [assumption|]).
        rewrite <- H6. f_equal. f_equal. lia.
Qed.

(** C3. The evaluation is a stratified 5-fold cross-validation.  When the
    two label arrays are as long as [features], some class has five
    members, the random generator permutes what it shuffles and
    [np.empty] returns an array of the length asked for, the splitter
    yields five pairs (train, test) such that: the five test sets are
    pairwise disjoint, each without repetition, and every sample is in one
    of them; in every fold the train set is the rest of the samples, so
    that no test index is a train index, and the test set holds of every
    class its fifth part, rounded down or up.  When
    moreover [train_test_split] returns for the train rows of the five
    folds, the loop returns after five folds, and for every fold the
    estimator is fitted on rows taken at the train indices only and the
    macro precision, macro recall, macro F1, weighted F1 and accuracy
    stored for the fold are computed from the labels at the test indices
    and the predictions for the feature rows at the same indices. *)
Theorem cv_loop_held_out :
  length labels = length features ->
  length labels_categorical = length features ->
  (exists v, (n_splits <= count_of v labels)%nat) ->
  (forall k a, rng_shuffle k a ≡ₚ a) ->
  (forall n, length (np_empty n) = n) ->
  exists folds,
    kfold_split = Ok folds
    /\ length folds = n_splits
    /\ (forall j k fj fk,
          folds !! j = Some fj -> folds !! k = Some fk -> j <> k ->
          forall i, i ∈ fj.2 -> i ∉ fk.2)
    /\ (forall fold, fold ∈ folds -> NoDup fold.2)
    /\ (forall i, (i < length features)%nat ->
          exists k fold, folds !! k = Some fold /\ i ∈ fold.2)
    /\ (forall fold, fold ∈ folds ->
          fold.1 ++ fold.2 ≡ₚ seq 0 (length features)
          /\ (forall i, i ∈ fold.2 -> i ∉ fold.1)
          /\ stratified fold.2)
    /\ ((forall fold, fold ∈ folds -> split_returns fold.1) ->
        exists st,
          cv_loop = Ok st
          /\ f st = foldNum
          /\ forall k train test,
               folds !! k = Some (train, test) -> held_out st k train test).
Proof.
  intros Hlab Hcat Hfive Hperm Hempty.
  destruct (split_five rng_shuffle np_empty Hperm Hempty features labels
              Hlab Hfive)
    as (folds & Hsplit & Hlen & Hdisj & Hcover & Hfold).
  assert (Hmem : forall fold, fold ∈ folds ->
             NoDup fold.2 /\ fold.1 ++ fold.2 ≡ₚ seq 0 (length features)
             /\ stratified fold.2).
  { intros [train test] Hin. apply list_elem_of_lookup in Hin as (k & Hk).
    destruct (Hfold k train test Hk) as (Hnd & Hp & Hs). auto. }
  assert (Hvalid : Forall (valid_fold (length features)) folds).
  { apply Forall_forall. intros fold Hin.
    destruct (Hmem fold Hin) as (_ & Hp & _).
    split; apply Forall_forall; intros i Hi;
      assert (Hi' : i ∈ fold.1 ++ fold.2) by (apply elem_of_app; auto);
      rewrite Hp in Hi'; apply elem_of_seq in Hi'; lia. }
  exists folds. split; [exact Hsplit|]. split; [exact Hlen|].
  split; [exact Hdisj|]. split; [intros fold Hin; apply (Hmem fold Hin)|].
  split; [exact Hcover|]. split.
  - intros fold Hin. destruct (Hmem fold Hin) as (_ & Hp & Hs).
    split; [exact Hp|]. split; [|exact Hs]. intros i Hi Hi'.
    assert (Hnd : NoDup (fold.1 ++ fold.2)) by (rewrite Hp; apply NoDup_seq).
    apply NoDup_app in Hnd as (_ & Hno & _). exact (Hno i Hi' Hi).
  - intros Hret.
    destruct (for_each_fold_body folds initial_state Hvalid) as
      (st & Hrun & Hf & _ & _ & Hscores).
    { apply Forall_forall. exact Hret. }
    { exact Hlab. }
    { exact Hcat. }
    { cbn [f initial_state]. rewrite Hlen. unfold n_splits, foldNum. lia. }
    { unfold initial_state, scores. cbn.
      repeat constructor; apply length_replicate. }
    exists st. split.
    { unfold cv_loop, kfold_split, n_splits. rewrite Hsplit. exact Hrun. }
    split; [rewrite Hf, Hlen; reflexivity|].
    intros k train test Hk.
    destruct (Hscores k train test Hk)
      as (X_tr & y_cat & X_te & y_true & est & H1 & H2 & H3 & H4 & H5 & H6).
    exists X_tr, y_cat, X_te, y_true, est.
    repeat (split; [assumption|]).
    split; [apply np_take_zip; assumption|]. split; [exact H5|].
    apply fold_scores_at_intro. exact H6.
Qed.

End Loop.

(** ** An example: twenty samples, ten of each class *)

Definition example_labels : list Z :=
  [1; 0; 1; 1; 0; 0; 1; 0; 1; 0; 0; 1; 1; 0; 1; 0; 0; 1; 0; 1]%Z.

Definition example_history : history PrimFloat.float :=
  {| h_loss := []; h_val_loss := []; h_accuracy := []; h_val_accuracy := [] |}.

(** Stand-ins for the library: the generator reverses the array it
    shuffles and [np.empty] returns sevens; [train_test_split] puts a
    tenth of the rows, rounded up, aside for validation and raises when
    these are fewer than the two classes; the fitted estimator remembers
    how many rows it saw and predicts class 0; the scores are zero. *)
Definition example_train_test_split (X : list nat) (y : list (list Z))
  : result (list nat * list nat * list (list Z) * list (list Z)) :=
  let n_val := ((length X + 9) / 10)%nat in
  if (n_val <? 2)%nat then Raise ValueError
  else Ok (drop n_val X, take n_val X, drop n_val y, take n_val y).

(** The five pairs (train, test) of the example. *)
Definition example_folds : list (list nat * list nat) :=
  [ ([0; 1; 2; 3; 4; 5; 6; 7; 8; 9; 10; 11; 12; 13; 14; 15], [16; 17; 18; 19]);
    ([0; 1; 2; 3; 4; 5; 6; 7; 8; 9; 10; 11; 16; 17; 18; 19], [12; 13; 14; 15]);
    ([0; 1; 2; 3; 4; 5; 6; 7; 12; 13; 14; 15; 16; 17; 18; 19], [8; 9; 10; 11]);
    ([0; 1; 2; 4; 8; 9; 10; 11; 12; 13; 14; 15; 16; 17; 18; 19], [3; 5; 6; 7]);
    ([3; 5; 6; 7; 8; 9; 10; 11; 12; 13; 14; 15; 16; 17; 18; 19], [0; 1; 2; 4]) ].

Definition example_cv_loop : result (cv_state PrimFloat.float) :=
  cv_loop nat (list Z) nat
    (fun _ a => reverse a)
    (fun n => replicate n 7%nat)
    example_train_test_split
    0%nat
    (fun _ X _ _ _ => (length X, example_history))
    (fun _ X => map (fun _ => 0%Z) X)
    (fun _ _ => [[1; 0]; [0; 1]]%Z)
    (fun _ _ => PrimFloat.zero) (fun _ _ => PrimFloat.zero)
    (fun _ _ => PrimFloat.zero) (fun _ _ => PrimFloat.zero)
    (fun _ _ => PrimFloat.zero)
    (seq 0 20) example_labels
    (map (fun y => [(1 - y)%Z; y]) example_labels).

Lemma cv_loop_held_out_witness :
  exists st,
    kfold_split nat (fun _ a => reverse a) (fun n => replicate n 7%nat)
      (seq 0 20) example_labels
    = Ok example_folds
    /\ example_cv_loop = Ok st /\ f st = 5%nat.
Proof.
  destruct (cv_loop_held_out nat (list Z) nat
              (fun _ a => reverse a)
              (fun n => replicate n 7%nat)
              example_train_test_split
              0%nat
              (fun _ X _ _ _ => (length X, example_history))
              (fun _ X => map (fun _ => 0%Z) X)
              (fun _ _ => [[1; 0]; [0; 1]]%Z)
              (fun _ _ => PrimFloat.zero) (fun _ _ => PrimFloat.zero)
              (fun _ _ => PrimFloat.zero) (fun _ _ => PrimFloat.zero)
              (fun _ _ => PrimFloat.zero)
              (seq 0 20) example_labels
              (map (fun y => [(1 - y)%Z; y]) example_labels))
    as (folds & Hsplit & _ & _ & _ & _ & _ & Hloop).
  - reflexivity.
  - reflexivity.
  - exists 0%Z. vm_compute. lia.
  - intros k a. apply reverse_Permutation.
  - intros n. apply length_replicate.
  - vm_compute in Hsplit. injection Hsplit as <-.
    destruct Hloop as (st & Hrun & Hf & _).
    + intros fold Hfold X y_cat HX Hy.
      repeat (apply elem_of_cons in Hfold as [->|Hfold];
              [vm_compute in HX; injection HX as <-;
               vm_compute in Hy; injection Hy as <-;
               eexists; vm_compute; reflexivity|]).
      inversion Hfold.
    + exists st. split; [reflexivity|]. split; [exact Hrun | exact Hf].
Defined.

End CrossValidation.
